(** * Depth-limited search over binary trees

    A shallow embedding of the three programs
    [robot_vacuum_cleaner.py], [warehouse_management.py] and
    [investment_management.py], which share one engine: a frontier (a Python
    list used as a stack) of search nodes, expanded depth first and bounded by
    a depth limit.

    Conventions of the embedding.
    - Payloads ([BinaryTreeNode.value], the goal) are integers, [Z].
    - [path_cost] is a Python float that only ever holds [0.0] plus a small
      number of unit increments; such floats are exact, so it is a [Z] here.
    - A child reference is [option BinaryTreeNode]; [None] is Python's [None].
    - The sentinels [failure] and [cutoff] are compared by identity in the
      source ([is failure], [is cutoff]); a search returns either one of them
      or a node taken from the frontier, which is the three-constructor type
      [SearchResult].
    - The [while frontier:] loop is run with fuel: [None] means that the fuel
      ran out, [Some r] that the function returned [r]. *)

From Stdlib Require Import ZArith List Bool Arith Lia Permutation.
Import ListNotations.

Set Implicit Arguments.

Scheme All for option.

(** ** Data model, shared by the three files *)

(** [class BinaryTreeNode]: a payload and two optional children. *)
Inductive BinaryTreeNode : Type :=
| mkBinaryTreeNode (v : Z) (l r : option BinaryTreeNode).

Definition value (t : BinaryTreeNode) : Z :=
  match t with mkBinaryTreeNode v _ _ => v end.

Definition left (t : BinaryTreeNode) : option BinaryTreeNode :=
  match t with mkBinaryTreeNode _ l _ => l end.

Definition right (t : BinaryTreeNode) : option BinaryTreeNode :=
  match t with mkBinaryTreeNode _ _ r => r end.

(** [class Node]: a node of the search tree. [action] is the child tree node
    that was stepped into ([None] at the root). *)
Inductive Node : Type :=
| mkNode (s : BinaryTreeNode) (p : option Node)
         (a : option BinaryTreeNode) (c : Z).

Definition state (n : Node) : BinaryTreeNode :=
  match n with mkNode s _ _ _ => s end.

Definition parent (n : Node) : option Node :=
  match n with mkNode _ p _ _ => p end.

Definition action (n : Node) : option BinaryTreeNode :=
  match n with mkNode _ _ a _ => a end.

Definition path_cost (n : Node) : Z :=
  match n with mkNode _ _ _ c => c end.

(** [Node(state)]: the constructor's defaults, [parent=None], [action=None],
    [path_cost=0.0]. *)
Definition Node_of (s : BinaryTreeNode) : Node := mkNode s None None 0%Z.

(** [Node.depth]: the length of the parent chain. *)
Fixpoint depth (n : Node) : nat :=
  match n with
  | mkNode _ None _ _ => 0
  | mkNode _ (Some p) _ _ => 1 + depth p
  end.

(** What [depth_limited_search] returns: a node popped from the frontier, or
    one of the two module-level sentinels. *)
Inductive SearchResult : Type :=
| Found (n : Node)
| failure
| cutoff.

(** [frontier.pop()]: removes and returns the last element of the list. *)
Definition pop (A : Type) (frontier : list A) : option (list A * A) :=
  match rev frontier with
  | [] => None
  | x :: r => Some (rev r, x)
  end.

(** Python truthiness of a child reference, as in [if state.left:].
    [BinaryTreeNode] defines neither [__bool__] nor [__len__], so every
    instance is truthy and only [None] is falsy. *)
Definition truthy (o : option BinaryTreeNode) : bool :=
  match o with Some _ => true | None => false end.

(** [x is not None]. *)
Definition is_not_None (o : option BinaryTreeNode) : bool :=
  match o with Some _ => true | None => false end.

(** [if test(x): children.append(x)]. Both tests used in the source reject
    [None], so the list only ever receives tree nodes. *)
Definition append_if (test : option BinaryTreeNode -> bool)
           (children : list BinaryTreeNode) (x : option BinaryTreeNode)
  : list BinaryTreeNode :=
  if test x
  then match x with
       | Some c => children ++ [c]
       | None => children
       end
  else children.

(** The local variables of the [while frontier:] loop of
    [depth_limited_search]. *)
Record LoopState : Type := mkLoopState {
  frontier : list Node;
  result : SearchResult
}.

(** One evaluation of the loop: either the function returns, or the loop goes
    round again with new locals. *)
Inductive Step (S R : Type) : Type :=
| Return (r : R)
| Continue (s : S).
Arguments Return {S R} r.
Arguments Continue {S R} s.

(** The [while] statement, with fuel. *)
Fixpoint while_loop (S R : Type) (body : S -> Step S R) (fuel : nat) (st : S)
  : option R :=
  match fuel with
  | O => None
  | Datatypes.S fuel' =>
      match body st with
      | Return r => Some r
      | Continue st' => while_loop body fuel' st'
      end
  end.

(** ** robot_vacuum_cleaner.py *)
Module Robot.

(** [class Problem(ABC)]: the two abstract methods are fields, [result_of]
    standing for the method [result]. *)
Record Problem : Type := mkProblem {
  initial : BinaryTreeNode;
  goal : Z;
  actions : BinaryTreeNode -> list BinaryTreeNode;
  result_of : BinaryTreeNode -> BinaryTreeNode -> BinaryTreeNode
}.

Definition is_goal (problem : Problem) (s : BinaryTreeNode) : bool :=
  (value s =? goal problem)%Z.

Definition action_cost (problem : Problem)
           (s a s1 : BinaryTreeNode) : Z := 1%Z.

(** [expand]: the generator is consumed at once by the caller's [for]
    loop, so it is the list of the nodes it yields. No [path_cost] is
    passed: each child gets the default [0.0]. *)
Definition expand (problem : Problem) (node : Node) : list Node :=
  let s := state node in
  map (fun a =>
         let s_next := result_of problem s a in
         mkNode s_next (Some node) (Some a) 0%Z)
      (actions problem s).

(** The body of [while frontier:]. *)
Definition loop_body (problem : Problem) (limit : Z) (st : LoopState)
  : Step LoopState SearchResult :=
  match pop (frontier st) with
  | None => Return (result st)
  | Some (rest, node) =>
      if is_goal problem (state node) then Return (Found node)
      else if (Z.of_nat (depth node) >=? limit)%Z
           then Continue (mkLoopState rest cutoff)
           else Continue (mkLoopState (rest ++ expand problem node)
                                      (result st))
  end.

Definition init (problem : Problem) : LoopState :=
  mkLoopState [Node_of (initial problem)] failure.

Definition depth_limited_search (fuel : nat) (problem : Problem)
           (limit : Z) : option SearchResult :=
  while_loop (loop_body problem limit) fuel (init problem).

(** [RoomNavigationProblem.actions]: children selected by truthiness. *)
Definition RoomNavigation_actions (s : BinaryTreeNode)
  : list BinaryTreeNode :=
  let children := [] in
  let children := append_if truthy children (left s) in
  let children := append_if truthy children (right s) in
  children.

Definition RoomNavigation_result (s a : BinaryTreeNode) : BinaryTreeNode :=
  a.

Definition RoomNavigationProblem (root : BinaryTreeNode) (g : Z)
  : Problem :=
  mkProblem root g RoomNavigation_actions RoomNavigation_result.

End Robot.

(** ** warehouse_management.py *)
Module Warehouse.

Record Problem : Type := mkProblem {
  initial : BinaryTreeNode;
  goal : Z;
  actions : BinaryTreeNode -> list BinaryTreeNode;
  result_of : BinaryTreeNode -> BinaryTreeNode -> BinaryTreeNode
}.

Definition is_goal (problem : Problem) (s : BinaryTreeNode) : bool :=
  (value s =? goal problem)%Z.

Definition action_cost (problem : Problem)
           (s a s1 : BinaryTreeNode) : Z := 1%Z.

(** [expand]: here the child's [path_cost] is [node.path_cost + 1]. *)
Definition expand (problem : Problem) (node : Node) : list Node :=
  map (fun a =>
         let s_next := result_of problem (state node) a in
         mkNode s_next (Some node) (Some a) (path_cost node + 1)%Z)
      (actions problem (state node)).

Definition loop_body (problem : Problem) (limit : Z) (st : LoopState)
  : Step LoopState SearchResult :=
  match pop (frontier st) with
  | None => Return (result st)
  | Some (rest, node) =>
      if is_goal problem (state node) then Return (Found node)
      else if (Z.of_nat (depth node) >=? limit)%Z
           then Continue (mkLoopState rest cutoff)
           else Continue (mkLoopState (rest ++ expand problem node)
                                      (result st))
  end.

Definition init (problem : Problem) : LoopState :=
  mkLoopState [Node_of (initial problem)] failure.

Definition depth_limited_search (fuel : nat) (problem : Problem)
           (limit : Z) : option SearchResult :=
  while_loop (loop_body problem limit) fuel (init problem).

(** [WarehouseProblem.actions]: children selected by [is not None]. *)
Definition Warehouse_actions (s : BinaryTreeNode) : list BinaryTreeNode :=
  let children := [] in
  let children := append_if is_not_None children (left s) in
  let children := append_if is_not_None children (right s) in
  children.

Definition Warehouse_result (s a : BinaryTreeNode) : BinaryTreeNode := a.

Definition WarehouseProblem (root : BinaryTreeNode) (g : Z) : Problem :=
  mkProblem root g Warehouse_actions Warehouse_result.

End Warehouse.

(** ** investment_management.py *)
Module Investment.

(** Here [Problem] has no goal, and [initial] may be [None]. *)
Record Problem : Type := mkProblem {
  initial : option BinaryTreeNode;
  actions : BinaryTreeNode -> list BinaryTreeNode;
  result_of : BinaryTreeNode -> BinaryTreeNode -> BinaryTreeNode
}.

Definition expand (problem : Problem) (node : Node) : list Node :=
  map (fun a =>
         let s_next := result_of problem (state node) a in
         mkNode s_next (Some node) (Some a) 0%Z)
      (actions problem (state node)).

(** The running maximum: [-math.inf] or an integer payload. *)
Inductive Num : Type :=
| NegInf
| Int (z : Z).

(** [x > max_value]. *)
Definition gtb (x : Z) (m : Num) : bool :=
  match m with
  | NegInf => true
  | Int y => (x >? y)%Z
  end.

Record MaxState : Type := mkMaxState {
  mfrontier : list Node;
  max_value : Num
}.

(** The body of [while frontier:] together with the final [return]:
    [None if max_value == -math.inf else max_value]. *)
Definition loop_body (problem : Problem) (limit : Z) (st : MaxState)
  : Step MaxState (option Z) :=
  match pop (mfrontier st) with
  | None =>
      Return (match max_value st with NegInf => None | Int m => Some m end)
  | Some (rest, node) =>
      let max_value' :=
        if gtb (value (state node)) (max_value st)
        then Int (value (state node)) else max_value st in
      if (Z.of_nat (depth node) <? limit)%Z
      then Continue (mkMaxState (rest ++ expand problem node) max_value')
      else Continue (mkMaxState rest max_value')
  end.

Definition init (root : BinaryTreeNode) : MaxState :=
  mkMaxState [Node_of root] NegInf.

(** The inner [option] is the function's value ([None] is Python's
    [None]); the outer one is the fuel. *)
Definition depth_limited_search_max (fuel : nat) (problem : Problem)
           (limit : Z) : option (option Z) :=
  match initial problem with
  | None => Some None
  | Some root => while_loop (loop_body problem limit) fuel (init root)
  end.

Definition Investment_actions (s : BinaryTreeNode) : list BinaryTreeNode :=
  let children := [] in
  let children := append_if is_not_None children (left s) in
  let children := append_if is_not_None children (right s) in
  children.

Definition Investment_result (s a : BinaryTreeNode) : BinaryTreeNode := a.

Definition InvestmentProblem (root : option BinaryTreeNode) : Problem :=
  mkProblem root Investment_actions Investment_result.

End Investment.

(** ** Trees: the notions the specification speaks of *)

Definition opt_list (A : Type) (o : option A) : list A :=
  match o with Some x => [x] | None => [] end.

(** The children that exist, left before right. *)
Definition children (t : BinaryTreeNode) : list BinaryTreeNode :=
  opt_list (left t) ++ opt_list (right t).

(** All nodes of a tree (as subtrees), in preorder. *)
Fixpoint subtrees (t : BinaryTreeNode) : list BinaryTreeNode :=
  match t with
  | mkBinaryTreeNode _ l r =>
      t :: (match l with Some c => subtrees c | None => [] end)
        ++ (match r with Some c => subtrees c | None => [] end)
  end.

(** The payloads carried by the nodes of a tree. *)
Definition values (t : BinaryTreeNode) : list Z := map value (subtrees t).

(** The nodes at depth at most [b] below the root of [t]. *)
Fixpoint subtrees_upto (b : nat) (t : BinaryTreeNode) : list BinaryTreeNode :=
  match t with
  | mkBinaryTreeNode _ l r =>
      t :: match b with
           | O => []
           | S b' =>
               (match l with Some c => subtrees_upto b' c | None => [] end)
                 ++ (match r with Some c => subtrees_upto b' c | None => [] end)
           end
  end.

Definition values_upto (b : nat) (t : BinaryTreeNode) : list Z :=
  map value (subtrees_upto b t).

(** Height: the largest depth of a node, a single node having height 0. *)
Fixpoint height (t : BinaryTreeNode) : nat :=
  match t with
  | mkBinaryTreeNode _ l r =>
      Nat.max (match l with Some c => S (height c) | None => 0 end)
              (match r with Some c => S (height c) | None => 0 end)
  end.

(** [m] is the maximum of the list [vs]. *)
Definition is_max (m : Z) (vs : list Z) : Prop :=
  In m vs /\ forall v, In v vs -> (v <= m)%Z.

(** How many hops a search node may still descend before the limit. *)
Definition budget (limit : Z) (n : Node) : nat :=
  Z.to_nat (limit - Z.of_nat (depth n)).

(** The tree nodes still to be visited below the nodes of a frontier. *)
Definition reach (limit : Z) (fr : list Node) : list BinaryTreeNode :=
  flat_map (fun n => subtrees_upto (budget limit n) (state n)) fr.

(** A search node is a path witness for [root]: its parent chain ends in a
    node without parent whose state is [root], and each link goes from a tree
    node to its left or right child. *)
Fixpoint path_witness (root : BinaryTreeNode) (n : Node) : Prop :=
  match n with
  | mkNode s None _ _ => s = root
  | mkNode s (Some p) _ _ =>
      (left (state p) = Some s \/ right (state p) = Some s)
      /\ path_witness root p
  end.

(** The path cost of a node and of each of its ancestors is its depth. *)
Fixpoint cost_is_depth (n : Node) : Prop :=
  match n with
  | mkNode _ None _ c => c = 0%Z
  | mkNode _ (Some p) _ c => c = Z.of_nat (S (depth p)) /\ cost_is_depth p
  end.

(** States reached from [st] by going round a loop. *)
Inductive reaches (S R : Type) (body : S -> Step S R) (st : S) : S -> Prop :=
| reaches_refl : reaches body st st
| reaches_step : forall st' st'',
    reaches body st st' -> body st' = Continue st'' -> reaches body st st''.

(** The nodes popped by a loop, in order: those that the search loop tests
    for the goal, and those that the maximum loop scores. [front] selects the
    frontier among the loop's locals. *)
Fixpoint popped (St R : Type) (front : St -> list Node)
         (body : St -> Step St R) (fuel : nat) (st : St) : list Node :=
  match fuel with
  | O => []
  | S fuel' =>
      match pop (front st) with
      | None => []
      | Some (_, node) =>
          node :: match body st with
                  | Return _ => []
                  | Continue st' => popped front body fuel' st'
                  end
      end
  end.

(** The outcome of a search, forgetting all of the returned node but its
    state. *)
Inductive Outcome : Type :=
| GoalAt (s : BinaryTreeNode)
| Fail
| Cut.

Definition classify (r : SearchResult) : Outcome :=
  match r with
  | Found n => GoalAt (state n)
  | failure => Fail
  | cutoff => Cut
  end.

(** The demonstration tree of [main] in the robot and warehouse files. *)
Definition leaf (v : Z) : BinaryTreeNode := mkBinaryTreeNode v None None.

Definition demo_tree : BinaryTreeNode :=
  mkBinaryTreeNode 1
    (Some (mkBinaryTreeNode 2 None (Some (leaf 4))))
    (Some (mkBinaryTreeNode 3 (Some (leaf 5)) None)).

(** The demonstration tree of [main] in the investment file. *)
Definition demo_investment : BinaryTreeNode :=
  mkBinaryTreeNode 3
    (Some (mkBinaryTreeNode 1 (Some (leaf 0)) None))
    (Some (mkBinaryTreeNode 5 (Some (leaf 4)) (Some (leaf 6)))).

(** ** The loops, seen from their frontier *)

(** The loop of [depth_limited_search], which is the same in the robot and in
    the warehouse file, over any goal test and any expansion function. *)
Definition dls_body (is_goal : BinaryTreeNode -> bool)
           (expand : Node -> list Node) (limit : Z) (st : LoopState)
  : Step LoopState SearchResult :=
  match pop (frontier st) with
  | None => Return (result st)
  | Some (rest, node) =>
      if is_goal (state node) then Return (Found node)
      else if (Z.of_nat (depth node) >=? limit)%Z
           then Continue (mkLoopState rest cutoff)
           else Continue (mkLoopState (rest ++ expand node) (result st))
  end.

Definition sentinel (r : SearchResult) : Prop := r = failure \/ r = cutoff.

(** Each round of a loop pops the last node of the frontier, and pushes its
    expansion exactly when its depth is below the limit. *)
Definition evolves (St R : Type) (body : St -> Step St R)
           (front : St -> list Node) (expand : Node -> list Node)
           (limit : Z) : Prop :=
  forall st st', body st = Continue st' ->
    exists rest node,
      front st = rest ++ [node] /\
      (((limit <= Z.of_nat (depth node))%Z /\ front st' = rest) \/
       ((Z.of_nat (depth node) < limit)%Z /\
        front st' = rest ++ expand node)).

(** The expansion of a node: one search node per child of its state, with
    the node as parent and the child as action. *)
Definition expands_children (expand : Node -> list Node) : Prop :=
  forall n, exists c,
    expand n = map (fun a => mkNode a (Some n) (Some a) c)
                   (children (state n)).

(** [v <= m] for a running maximum [m]; nothing is below [-inf]. *)
Definition le_Num (v : Z) (m : Investment.Num) : Prop :=
  match m with
  | Investment.NegInf => False
  | Investment.Int y => (v <= y)%Z
  end.

(** The running maximum after scoring the payload [v]:
    [if v > max_value: max_value = v]. *)
Definition score (v : Z) (m : Investment.Num) : Investment.Num :=
  if Investment.gtb v m then Investment.Int v else m.

(** The invariant of the maximum loop, for the nodes [V] at depth at most
    the limit: each is still within reach of the frontier or already below
    the running maximum; the running maximum is [-inf] or the payload of one
    of them; and nothing else is within reach. *)
Definition max_inv (root : BinaryTreeNode) (limit : Z)
           (st : Investment.MaxState) : Prop :=
  let V := subtrees_upto (Z.to_nat limit) root in
  (forall x, In x V ->
             In x (reach limit (Investment.mfrontier st)) \/
             le_Num (value x) (Investment.max_value st)) /\
  (Investment.max_value st = Investment.NegInf \/
   exists x, In x V /\ Investment.max_value st = Investment.Int (value x)) /\
  (forall x, In x (reach limit (Investment.mfrontier st)) -> In x V).

(** Two search nodes that differ at most in the path costs along their
    parent chains: same state, same depth. *)
Definition same_place (n1 n2 : Node) : Prop :=
  state n1 = state n2 /\ depth n1 = depth n2.

(** ** Notions for the further properties *)

(** The order in which a loop visits a tree down to [b] hops: a node, then
    what lies below its right child, then what lies below its left child
    (the right child is pushed last, so popped first). *)
Fixpoint visit_order (b : nat) (t : BinaryTreeNode) : list BinaryTreeNode :=
  match t with
  | mkBinaryTreeNode _ l r =>
      t :: match b with
           | O => []
           | S b' =>
               (match r with Some c => visit_order b' c | None => [] end)
                 ++ (match l with Some c => visit_order b' c | None => [] end)
           end
  end.

(** The tree nodes that a frontier has in store, in the order in which they
    will be popped: the last node of the list comes first. *)
Definition pending (limit : Z) (fr : list Node) : list BinaryTreeNode :=
  flat_map (fun n => visit_order (budget limit n) (state n)) (rev fr).

(** The elements of a list up to and including the first that passes a
    test. *)
Fixpoint until (A : Type) (p : A -> bool) (l : list A) : list A :=
  match l with
  | [] => []
  | x :: l' => x :: if p x then [] else until p l'
  end.

(** Some frontier node has, below its state, a tree node at or beyond the
    limit. *)
Definition cut_pending (limit : Z) (fr : list Node) : Prop :=
  Exists (fun n => budget limit n <= height (state n)) fr.




(** ** Lists and the frontier *)

Lemma pop_snoc (A : Type) (l : list A) (x : A) : pop (l ++ [x]) = Some (l, x).
Proof.
  unfold pop. rewrite rev_app_distr. simpl. now rewrite rev_involutive.
Qed.

Lemma pop_Some (A : Type) (l rest : list A) (x : A) :
  pop l = Some (rest, x) -> l = rest ++ [x].
Proof.
  unfold pop. destruct (rev l) as [|y r] eqn:E; [discriminate|].
  intros H. inversion H; subst.
  rewrite <- (rev_involutive l), E. reflexivity.
Qed.

Lemma pop_None (A : Type) (l : list A) : pop l = None -> l = [].
Proof.
  unfold pop. destruct (rev l) as [|y r] eqn:E; [|discriminate].
  intros _. rewrite <- (rev_involutive l), E. reflexivity.
Qed.

Lemma pop_nil (A : Type) : pop (@nil A) = None.
Proof. reflexivity. Qed.

Lemma pop_singleton (A : Type) (x : A) : pop [x] = Some ([], x).
Proof. reflexivity. Qed.

(** ** The loop combinator *)

Lemma while_loop_more (St R : Type) (body : St -> Step St R) :
  forall fuel st r extra,
    while_loop body fuel st = Some r ->
    while_loop body (fuel + extra) st = Some r.
Proof.
  induction fuel as [|fuel IH]; intros st r extra H; [discriminate|].
  simpl in *. destruct (body st) as [r'|st']; [assumption|].
  now apply IH.
Qed.

Lemma reaches_trans (St R : Type) (body : St -> Step St R) (a b c : St) :
  reaches body a b -> reaches body b c -> reaches body a c.
Proof.
  intros Hab Hbc. induction Hbc as [|st' st'' _ IH Hstep]; [assumption|].
  eapply reaches_step; eassumption.
Qed.

(** Whatever a loop returns, it returns from a state it reached. *)
Lemma while_loop_returns (St R : Type) (body : St -> Step St R) :
  forall fuel st r,
    while_loop body fuel st = Some r ->
    exists st', reaches body st st' /\ body st' = Return r.
Proof.
  induction fuel as [|fuel IH]; intros st r H; [discriminate|].
  simpl in H. destruct (body st) as [r'|st1] eqn:E.
  - inversion H; subst. exists st. split; [constructor|assumption].
  - destruct (IH _ _ H) as [st' [Hr Hb]]. exists st'. split; [|assumption].
    eapply reaches_trans; [|exact Hr].
    eapply reaches_step; [constructor|exact E].
Qed.

(** ** Trees *)

Lemma RoomNavigation_actions_children (t : BinaryTreeNode) :
  Robot.RoomNavigation_actions t = children t.
Proof. destruct t as [v [l|] [r|]]; reflexivity. Qed.

Lemma Warehouse_actions_children (t : BinaryTreeNode) :
  Warehouse.Warehouse_actions t = children t.
Proof. destruct t as [v [l|] [r|]]; reflexivity. Qed.

Lemma Investment_actions_children (t : BinaryTreeNode) :
  Investment.Investment_actions t = children t.
Proof. destruct t as [v [l|] [r|]]; reflexivity. Qed.

Lemma children_left_right (t c : BinaryTreeNode) :
  In c (children t) <-> left t = Some c \/ right t = Some c.
Proof.
  destruct t as [v [l|] [r|]]; unfold children; simpl; split; intros H;
    repeat match goal with
           | H : _ \/ _ |- _ => destruct H
           | H : Some _ = Some _ |- _ => inversion H; subst; clear H
           | H : False |- _ => destruct H
           end; subst; auto; try discriminate.
Qed.

Lemma subtrees_upto_0 (t : BinaryTreeNode) : subtrees_upto 0 t = [t].
Proof. destruct t; reflexivity. Qed.

Lemma subtrees_upto_S (b : nat) (t : BinaryTreeNode) :
  subtrees_upto (S b) t = t :: flat_map (subtrees_upto b) (children t).
Proof.
  destruct t as [v [l|] [r|]]; unfold children; simpl;
    rewrite ?app_nil_r; reflexivity.
Qed.

Lemma subtrees_children (t : BinaryTreeNode) :
  subtrees t = t :: flat_map subtrees (children t).
Proof.
  destruct t as [v [l|] [r|]]; unfold children; simpl;
    rewrite ?app_nil_r; reflexivity.
Qed.

Lemma height_children (t c : BinaryTreeNode) :
  In c (children t) -> height c < height t.
Proof.
  destruct t as [v [l|] [r|]]; unfold children; simpl; intros H;
    repeat match goal with
           | H : _ \/ _ |- _ => destruct H
           | H : False |- _ => destruct H
           end; subst; lia.
Qed.

Lemma flat_map_ext_in (A B : Type) (f g : A -> list B) (l : list A) :
  (forall x, In x l -> f x = g x) -> flat_map f l = flat_map g l.
Proof.
  induction l as [|a l IH]; intros H; simpl; [reflexivity|].
  rewrite (H a) by (now left). f_equal. apply IH.
  intros x Hx. apply H. now right.
Qed.

(** With a budget of at least the height, nothing of the tree is cut off. *)
Lemma subtrees_upto_height :
  forall b t, height t <= b -> subtrees_upto b t = subtrees t.
Proof.
  induction b as [|b IH]; intros t Hh.
  - rewrite subtrees_upto_0, subtrees_children.
    destruct (children t) as [|c cs] eqn:E; [reflexivity|].
    assert (height c < height t)
      by (apply height_children; rewrite E; now left).
    lia.
  - rewrite subtrees_upto_S, subtrees_children. f_equal.
    apply flat_map_ext_in. intros c Hc. apply IH.
    apply height_children in Hc. lia.
Qed.

Lemma subtrees_upto_sub :
  forall b t x, In x (subtrees_upto b t) -> In x (subtrees t).
Proof.
  induction b as [|b IH]; intros t x H.
  - rewrite subtrees_upto_0 in H. rewrite subtrees_children.
    destruct H as [H|[]]. now left.
  - rewrite subtrees_upto_S in H. rewrite subtrees_children.
    destruct H as [H|H]; [now left|right].
    apply in_flat_map in H. destruct H as [c [Hc Hx]].
    apply in_flat_map. exists c. split; [assumption|]. now apply IH.
Qed.

Lemma subtrees_self (t : BinaryTreeNode) : In t (subtrees t).
Proof. rewrite subtrees_children. now left. Qed.

Lemma subtrees_upto_self (b : nat) (t : BinaryTreeNode) :
  In t (subtrees_upto b t).
Proof.
  destruct b; [rewrite subtrees_upto_0|rewrite subtrees_upto_S]; now left.
Qed.

(** A child of a node of [root] is a node of [root]. *)
Lemma subtrees_child :
  forall root t c, In t (subtrees root) -> In c (children t) ->
                   In c (subtrees root).
Proof.
  induction root as [v l Hl r Hr]. intros t c Ht Hc.
  rewrite subtrees_children in Ht. destruct Ht as [Ht|Ht].
  - subst t. rewrite subtrees_children. right.
    apply in_flat_map. exists c. split; [assumption|apply subtrees_self].
  - rewrite subtrees_children. right.
    apply in_flat_map in Ht. destruct Ht as [k [Hk Ht]].
    apply in_flat_map. exists k. split; [assumption|].
    unfold children in Hk. simpl in Hk. apply in_app_or in Hk.
    destruct Hk as [Hk|Hk].
    + destruct Hl as [l IHl|]; simpl in Hk; [|contradiction].
      destruct Hk as [Hk|[]]. subst k. now apply IHl with t.
    + destruct Hr as [r IHr|]; simpl in Hk; [|contradiction].
      destruct Hk as [Hk|[]]. subst k. now apply IHr with t.
Qed.

(** ** Loops that pop a node and push its expansion *)

Lemma reach_app (limit : Z) (a b : list Node) :
  reach limit (a ++ b) = reach limit a ++ reach limit b.
Proof. unfold reach. apply flat_map_app. Qed.

Lemma reach_cut (limit : Z) (n : Node) :
  (limit <= Z.of_nat (depth n))%Z ->
  subtrees_upto (budget limit n) (state n) = [state n].
Proof.
  intros H. unfold budget.
  replace (Z.to_nat (limit - Z.of_nat (depth n))) with 0 by lia.
  apply subtrees_upto_0.
Qed.

Lemma reach_expand (limit : Z) (n : Node) (c : Z) :
  (Z.of_nat (depth n) < limit)%Z ->
  subtrees_upto (budget limit n) (state n)
  = state n
      :: reach limit (map (fun a => mkNode a (Some n) (Some a) c)
                          (children (state n))).
Proof.
  intros H.
  assert (Hb : budget limit n
               = S (Z.to_nat (limit - Z.of_nat (S (depth n)))))
    by (unfold budget; lia).
  rewrite Hb, subtrees_upto_S. f_equal.
  unfold reach. induction (children (state n)) as [|a l IH];
    cbn [map flat_map]; [reflexivity|].
  rewrite IH. reflexivity.
Qed.

Section FrontierLoop.

Variables St R : Type.
Variable body : St -> Step St R.
Variable front : St -> list Node.
Variable expand : Node -> list Node.
Variable limit : Z.

Hypothesis Hev : evolves body front expand limit.

(** A property of nodes that expansion below the limit preserves holds
    of every node that is ever on the frontier. *)
Lemma frontier_invariant (P : Node -> Prop) :
  (forall n c, P n -> (Z.of_nat (depth n) < limit)%Z ->
               In c (expand n) -> P c) ->
  forall st st', reaches body st st' ->
                 Forall P (front st) -> Forall P (front st').
Proof.
  intros HP st st' Hr H0.
  induction Hr as [|s1 s2 _ IH Hstep]; [assumption|].
  destruct (Hev Hstep) as [rest [node [Hf [[_ Hf']|[Hlt Hf']]]]];
    rewrite Hf'; rewrite Hf in IH; apply Forall_app in IH;
    destruct IH as [Hrest Hnode]; [assumption|].
  apply Forall_app. split; [assumption|].
  apply Forall_forall. intros c Hc.
  inversion Hnode; subst. eapply HP; eassumption.
Qed.

Hypothesis Hexp : expands_children expand.

(** Going round the loop removes exactly the popped node's state from
    what remains to be visited. *)
Lemma reach_round (st st' : St) :
  body st = Continue st' ->
  exists rest node,
    front st = rest ++ [node] /\
    exists pre post,
      reach limit (front st) = pre ++ state node :: post /\
      reach limit (front st') = pre ++ post.
Proof.
  intros Hstep.
  destruct (Hev Hstep) as [rest [node [Hf [[Hge Hf']|[Hlt Hf']]]]];
    exists rest, node; (split; [assumption|]);
    rewrite Hf, Hf', !reach_app; unfold reach at 2; simpl;
    rewrite app_nil_r.
  - exists (reach limit rest), [].
    rewrite (@reach_cut limit node Hge), app_nil_r.
    split; reflexivity.
  - destruct (Hexp node) as [c Hc]. rewrite Hc.
    exists (reach limit rest),
      (reach limit (map (fun a => mkNode a (Some node) (Some a) c)
                        (children (state node)))).
    rewrite (@reach_expand limit node c Hlt). split; reflexivity.
Qed.

Lemma reach_round_length (st st' : St) :
  body st = Continue st' ->
  length (reach limit (front st)) = S (length (reach limit (front st'))).
Proof.
  intros Hstep.
  destruct (reach_round Hstep) as [rest [node [_ [pre [post [H1 H2]]]]]].
  rewrite H1, H2, !length_app. simpl. lia.
Qed.

Lemma reach_round_In (st st' : St) :
  body st = Continue st' ->
  exists rest node,
    front st = rest ++ [node] /\
    forall x, In x (reach limit (front st)) <->
              x = state node \/ In x (reach limit (front st')).
Proof.
  intros Hstep.
  destruct (reach_round Hstep) as [rest [node [Hf [pre [post [H1 H2]]]]]].
  exists rest, node. split; [assumption|]. intros x.
  rewrite H1, H2, !in_app_iff. simpl. intuition congruence.
Qed.

(** What is within reach of the frontier only shrinks. *)
Lemma reach_reaches (st st' : St) :
  reaches body st st' ->
  forall x, In x (reach limit (front st')) -> In x (reach limit (front st)).
Proof.
  intros Hr. induction Hr as [|s1 s2 _ IH Hstep]; intros x Hx;
    [assumption|].
  apply IH. destruct (reach_round_In Hstep) as [rest [node [_ Hin]]].
  apply Hin. now right.
Qed.

(** The loop returns after at most one round per node within reach, and
    one more round to see the empty frontier. *)
Lemma loop_terminates :
  forall fuel st,
    length (reach limit (front st)) < fuel ->
    exists r, while_loop body fuel st = Some r.
Proof.
  induction fuel as [|fuel IH]; intros st Hlt; [lia|].
  simpl. destruct (body st) as [r|st'] eqn:E.
  - now exists r.
  - apply IH. rewrite (reach_round_length E) in Hlt. lia.
Qed.

End FrontierLoop.

Lemma depth_Node_of (t : BinaryTreeNode) : depth (Node_of t) = 0.
Proof. reflexivity. Qed.

Lemma reach_init (limit : Z) (root : BinaryTreeNode) :
  reach limit [Node_of root] = subtrees_upto (Z.to_nat limit) root.
Proof.
  unfold reach, budget. simpl. rewrite app_nil_r, Z.sub_0_r. reflexivity.
Qed.

(** ** The search loop of the robot and warehouse files

    The two files have the same loop; it is studied once, over any goal test
    and any expansion function. *)

Section DepthLimited.

Variable is_goal : BinaryTreeNode -> bool.
Variable expand : Node -> list Node.
Variable limit : Z.

Lemma dls_body_cases (st : LoopState) :
  match dls_body is_goal expand limit st with
  | Return r =>
      (frontier st = [] /\ r = result st) \/
      (exists rest node,
          frontier st = rest ++ [node] /\
          is_goal (state node) = true /\ r = Found node)
  | Continue st' =>
      exists rest node,
        frontier st = rest ++ [node] /\
        is_goal (state node) = false /\
        (((limit <= Z.of_nat (depth node))%Z /\
          st' = mkLoopState rest cutoff) \/
         ((Z.of_nat (depth node) < limit)%Z /\
          st' = mkLoopState (rest ++ expand node) (result st)))
  end.
Proof.
  unfold dls_body.
  destruct (pop (frontier st)) as [[rest node]|] eqn:E.
  - apply pop_Some in E.
    destruct (is_goal (state node)) eqn:G.
    + right. exists rest, node. auto.
    + rewrite Z.geb_leb.
      destruct (Z.leb_spec limit (Z.of_nat (depth node)));
        exists rest, node; auto.
  - apply pop_None in E. left. auto.
Qed.

Lemma dls_evolves :
  evolves (dls_body is_goal expand limit) frontier expand limit.
Proof.
  intros st st' H. pose proof (dls_body_cases st) as C. rewrite H in C.
  destruct C as [rest [node [Hf [_ [[Hge ->]|[Hlt ->]]]]]];
    exists rest, node; simpl; auto.
Qed.

Lemma dls_sentinel (st st' : LoopState) :
  reaches (dls_body is_goal expand limit) st st' ->
  sentinel (result st) -> sentinel (result st').
Proof.
  intros Hr H0. induction Hr as [|s1 s2 _ IH Hstep]; [assumption|].
  pose proof (dls_body_cases s1) as C. rewrite Hstep in C.
  destruct C as [rest [node [_ [_ [[_ ->]|[_ ->]]]]]]; simpl;
    [now right|assumption].
Qed.

(** A returned node passed the goal test on being popped from the
    frontier of a state that the loop reached. *)
Lemma dls_found (fuel : nat) (st : LoopState) (n : Node) :
  sentinel (result st) ->
  while_loop (dls_body is_goal expand limit) fuel st = Some (Found n) ->
  is_goal (state n) = true /\
  exists st',
    reaches (dls_body is_goal expand limit) st st' /\ In n (frontier st').
Proof.
  intros Hs H. apply while_loop_returns in H.
  destruct H as [st' [Hr Hb]].
  pose proof (dls_body_cases st') as C. rewrite Hb in C.
  destruct C as [[_ E]|[rest [node [Hf [G E]]]]].
  - pose proof (dls_sentinel Hr Hs) as [S1|S1]; congruence.
  - inversion E; subst node. split; [assumption|].
    exists st'. split; [assumption|]. rewrite Hf.
    apply in_or_app. right. now left.
Qed.

(** The verdict of a search that ends without a goal: [cutoff] if a popped
    node was at or beyond the limit, the initial verdict otherwise. *)
Lemma dls_verdict :
  forall fuel st r,
    while_loop (dls_body is_goal expand limit) fuel st = Some r ->
    (forall n, r <> Found n) ->
    r = if existsb (fun n => (Z.of_nat (depth n) >=? limit)%Z)
                   (popped frontier (dls_body is_goal expand limit) fuel st)
        then cutoff else result st.
Proof.
  induction fuel as [|fuel IH]; intros st r H Hn; [discriminate|].
  cbn [while_loop popped] in *. pose proof (dls_body_cases st) as C.
  destruct (dls_body is_goal expand limit st) as [r'|st'] eqn:E.
  - inversion H; subst r'.
    destruct C as [[Hf Hr]|[rest [node [_ [_ Hr]]]]].
    + rewrite Hf, pop_nil. simpl. assumption.
    + exfalso. eapply Hn. eassumption.
  - destruct C as [rest [node [Hf [_ C]]]].
    rewrite Hf, pop_snoc. simpl. rewrite (IH _ _ H Hn).
    destruct C as [[Hge ->]|[Hlt ->]]; simpl.
    + replace (Z.of_nat (depth node) >=? limit)%Z with true
        by (symmetry; apply Z.geb_le; lia).
      simpl. now destruct (existsb _ _).
    + replace (Z.of_nat (depth node) >=? limit)%Z with false
        by (symmetry; rewrite Z.geb_leb; apply Z.leb_gt; lia).
      reflexivity.
Qed.

(** Every popped node but a returned one failed the goal test. *)
Lemma dls_popped_not_goal :
  forall fuel st r,
    while_loop (dls_body is_goal expand limit) fuel st = Some r ->
    (forall n, r <> Found n) ->
    Forall (fun n => is_goal (state n) = false)
           (popped frontier (dls_body is_goal expand limit) fuel st).
Proof.
  induction fuel as [|fuel IH]; intros st r H Hn; [discriminate|].
  cbn [while_loop popped] in *. pose proof (dls_body_cases st) as C.
  destruct (dls_body is_goal expand limit st) as [r'|st'] eqn:E.
  - inversion H; subst r'.
    destruct C as [[Hf Hr]|[rest [node [_ [_ Hr]]]]].
    + rewrite Hf, pop_nil. constructor.
    + exfalso. eapply Hn. eassumption.
  - destruct C as [rest [node [Hf [G _]]]].
    rewrite Hf, pop_snoc. constructor; [assumption|].
    eapply IH; eassumption.
Qed.

Hypothesis Hexp : expands_children expand.

(** While a goal is within reach of the frontier, the loop can only
    return a goal node. *)
Lemma dls_complete :
  forall fuel st r,
    while_loop (dls_body is_goal expand limit) fuel st = Some r ->
    (exists x, In x (reach limit (frontier st)) /\ is_goal x = true) ->
    exists n, r = Found n /\ is_goal (state n) = true.
Proof.
  induction fuel as [|fuel IH]; intros st r H [x [Hx Gx]]; [discriminate|].
  cbn [while_loop] in H. pose proof (dls_body_cases st) as C.
  destruct (dls_body is_goal expand limit st) as [r'|st'] eqn:E.
  - inversion H; subst r'.
    destruct C as [[Hf _]|[rest [node [_ [G Hr]]]]].
    + rewrite Hf in Hx. destruct Hx.
    + exists node. auto.
  - destruct C as [rest [node [Hf [G _]]]].
    destruct (@reach_round_In _ _ (dls_body is_goal expand limit) frontier
                              expand limit dls_evolves Hexp st st' E)
      as [rest' [node' [Hf' Hin]]].
    rewrite Hf in Hf'. apply app_inj_tail in Hf'. destruct Hf' as [_ <-].
    apply (IH _ _ H). exists x. split; [|assumption].
    apply Hin in Hx. destruct Hx as [Hx|Hx]; [|assumption].
    subst x. congruence.
Qed.

(** Expansion extends a path witness by one link. *)
Lemma expand_path_witness (root : BinaryTreeNode) (n c : Node) :
  path_witness root n -> In c (expand n) -> path_witness root c.
Proof.
  intros Hn Hc. destruct (Hexp n) as [k Hk]. rewrite Hk in Hc.
  apply in_map_iff in Hc. destruct Hc as [a [<- Ha]].
  simpl. split; [|assumption]. now apply children_left_right.
Qed.

Lemma expand_depth (n c : Node) : In c (expand n) -> depth c = S (depth n).
Proof.
  intros Hc. destruct (Hexp n) as [k Hk]. rewrite Hk in Hc.
  apply in_map_iff in Hc. destruct Hc as [a [<- _]]. reflexivity.
Qed.

End DepthLimited.

Lemma reach_last (limit : Z) (rest : list Node) (node : Node) :
  In (state node) (reach limit (rest ++ [node])).
Proof.
  rewrite reach_app. apply in_or_app. right.
  unfold reach. simpl. rewrite app_nil_r. apply subtrees_upto_self.
Qed.

(** The state of a path witness is a node of the tree. *)
Lemma path_witness_subtree (root : BinaryTreeNode) :
  forall n, path_witness root n -> In (state n) (subtrees root).
Proof.
  induction n as [s p Hp a c]. simpl.
  destruct Hp as [p IHp|].
  - intros [Hc Hw]. apply subtrees_child with (state p); [now apply IHp|].
    now apply children_left_right.
  - intros ->. apply subtrees_self.
Qed.

(** The search returns, and it returns a goal node exactly when the goal
    value occurs at depth at most the limit. *)
Lemma dls_found_iff_within (expand : Node -> list Node)
      (root : BinaryTreeNode) (g limit : Z) :
  expands_children expand ->
  exists r,
    (forall extra,
        while_loop (dls_body (fun s => (value s =? g)%Z) expand limit)
                   (S (length (subtrees_upto (Z.to_nat limit) root)) + extra)
                   (mkLoopState [Node_of root] failure) = Some r) /\
    ((exists n, r = Found n /\ value (state n) = g) <->
     In g (values_upto (Z.to_nat limit) root)).
Proof.
  intros Hexp.
  set (body := dls_body (fun s => (value s =? g)%Z) expand limit).
  set (st0 := mkLoopState [Node_of root] failure).
  assert (Hev : evolves body frontier expand limit) by apply dls_evolves.
  destruct (@loop_terminates _ _ body frontier expand limit Hev Hexp
              (S (length (subtrees_upto (Z.to_nat limit) root))) st0)
    as [r Hr].
  { unfold st0. cbn [frontier]. rewrite reach_init. lia. }
  exists r. split; [intros extra; now apply while_loop_more|].
  split.
  - intros [n [-> Hv]].
    apply dls_found in Hr; [|now left].
    destruct Hr as [_ [st' [Hreach Hin]]].
    unfold values_upto. rewrite <- Hv. apply in_map.
    rewrite <- (reach_init limit root).
    change [Node_of root] with (frontier st0).
    apply (@reach_reaches _ _ body frontier expand limit Hev Hexp st0 st'
                          Hreach).
    apply in_split in Hin. destruct Hin as [l1 [l2 ->]].
    rewrite reach_app. apply in_or_app. right.
    unfold reach. simpl. apply in_or_app. left. apply subtrees_upto_self.
  - intros Hg. unfold values_upto in Hg. apply in_map_iff in Hg.
    destruct Hg as [x [Hv Hx]].
    destruct (@dls_complete _ expand limit Hexp _ _ _ Hr) as [n [-> Hn]].
    + exists x. unfold st0. cbn [frontier]. rewrite reach_init.
      split; [assumption|].
      now apply Z.eqb_eq.
    + exists n. split; [reflexivity|]. now apply Z.eqb_eq.
Qed.

(** ** The two instances *)

Lemma Robot_expands (root : BinaryTreeNode) (g : Z) :
  expands_children (Robot.expand (Robot.RoomNavigationProblem root g)).
Proof.
  intros n. exists 0%Z. unfold Robot.expand. simpl.
  rewrite RoomNavigation_actions_children. reflexivity.
Qed.

Lemma Warehouse_expands (root : BinaryTreeNode) (g : Z) :
  expands_children (Warehouse.expand (Warehouse.WarehouseProblem root g)).
Proof.
  intros n. exists (path_cost n + 1)%Z. unfold Warehouse.expand. simpl.
  rewrite Warehouse_actions_children. reflexivity.
Qed.

Lemma Robot_loop_body_dls (problem : Robot.Problem) (limit : Z) :
  Robot.loop_body problem limit
  = dls_body (Robot.is_goal problem) (Robot.expand problem) limit.
Proof. reflexivity. Qed.

Lemma Warehouse_loop_body_dls (problem : Warehouse.Problem) (limit : Z) :
  Warehouse.loop_body problem limit
  = dls_body (Warehouse.is_goal problem) (Warehouse.expand problem) limit.
Proof. reflexivity. Qed.

(** ** The claims *)

(** C1. For every tree and every limit at least the tree's height (the
    largest depth of a node), [depth_limited_search], in the robot file and
    in the warehouse file, returns, and what it returns is a goal node, that
    is a search node whose state's value is the goal, if and only if some
    node of the tree carries the goal value. *)
Theorem C1_goal_returned_iff_present
        (root : BinaryTreeNode) (g limit : Z) :
  (Z.of_nat (height root) <= limit)%Z ->
  exists r_robot r_warehouse,
    (forall extra,
        Robot.depth_limited_search
          (S (length (subtrees root)) + extra)
          (Robot.RoomNavigationProblem root g) limit = Some r_robot) /\
    (forall extra,
        Warehouse.depth_limited_search
          (S (length (subtrees root)) + extra)
          (Warehouse.WarehouseProblem root g) limit = Some r_warehouse) /\
    ((exists n, r_robot = Found n /\ value (state n) = g) <->
     In g (values root)) /\
    ((exists n, r_warehouse = Found n /\ value (state n) = g) <->
     In g (values root)).
Proof.
  intros Hh.
  assert (Hs : subtrees_upto (Z.to_nat limit) root = subtrees root)
    by (apply subtrees_upto_height; lia).
  destruct (@dls_found_iff_within _ root g limit (Robot_expands root g))
    as [r1 [T1 I1]].
  destruct (@dls_found_iff_within _ root g limit (Warehouse_expands root g))
    as [r2 [T2 I2]].
  unfold values_upto in I1, I2. rewrite Hs in T1, T2, I1, I2.
  exists r1, r2. repeat split; try assumption; try apply I1; try apply I2.
Qed.

Lemma C1_witness :
  exists r_robot r_warehouse,
    (forall extra,
        Robot.depth_limited_search
          (S (length (subtrees demo_tree)) + extra)
          (Robot.RoomNavigationProblem demo_tree 4) 2 = Some r_robot) /\
    (forall extra,
        Warehouse.depth_limited_search
          (S (length (subtrees demo_tree)) + extra)
          (Warehouse.WarehouseProblem demo_tree 4) 2 = Some r_warehouse) /\
    ((exists n, r_robot = Found n /\ value (state n) = 4%Z) <->
     In 4%Z (values demo_tree)) /\
    ((exists n, r_warehouse = Found n /\ value (state n) = 4%Z) <->
     In 4%Z (values demo_tree)).
Proof.
  apply (@C1_goal_returned_iff_present demo_tree 4 2). simpl. lia.
Defined.

(** The verdict of a search that started with [result = failure] and ended
    without a goal node, in terms of the nodes it popped. *)
Lemma dls_failure_or_cutoff
      (is_goal : BinaryTreeNode -> bool) (expand : Node -> list Node)
      (limit : Z) (fuel : nat) (st : LoopState) (r : SearchResult) :
  result st = failure ->
  while_loop (dls_body is_goal expand limit) fuel st = Some r ->
  (forall n, r <> Found n) ->
  (r = failure <->
   Forall (fun n => (Z.of_nat (depth n) < limit)%Z)
          (popped frontier (dls_body is_goal expand limit) fuel st)) /\
  (r = cutoff <->
   Exists (fun n => is_goal (state n) = false /\
                    (limit <= Z.of_nat (depth n))%Z)
          (popped frontier (dls_body is_goal expand limit) fuel st)).
Proof.
  intros H0 Hr Hn.
  pose proof (dls_verdict _ _ _ _ _ Hr Hn) as V.
  pose proof (dls_popped_not_goal _ _ _ _ _ Hr Hn) as G.
  rewrite Forall_forall in G. rewrite H0 in V.
  destruct (existsb _ _) eqn:E.
  - apply existsb_exists in E. destruct E as [x [Hx Hd]].
    apply Z.geb_le in Hd. subst r. split; split; try discriminate.
    + intros HF. rewrite Forall_forall in HF. apply HF in Hx. lia.
    + intros _. apply Exists_exists. exists x. auto.
    + reflexivity.
  - subst r. split; split; try discriminate; try reflexivity.
    + intros _. apply Forall_forall. intros x Hx.
      destruct (Z.of_nat (depth x) >=? limit)%Z eqn:D.
      * assert (existsb
                  (fun n => (Z.of_nat (depth n) >=? limit)%Z)
                  (popped frontier (dls_body is_goal expand limit) fuel st)
                = true) by (apply existsb_exists; eauto).
        congruence.
      * rewrite Z.geb_leb in D. apply Z.leb_gt in D. assumption.
    + intros HE. apply Exists_exists in HE. destruct HE as [x [Hx [_ Hd]]].
      assert (existsb (fun n => (Z.of_nat (depth n) >=? limit)%Z)
                      (popped frontier (dls_body is_goal expand limit) fuel st)
              = true).
      { apply existsb_exists. exists x. split; [assumption|].
        apply Z.geb_le. assumption. }
      congruence.
Qed.

(** C2. When [depth_limited_search] (robot file and warehouse file) returns
    without a goal node, so with its frontier empty, the value returned is
    [failure] exactly when every popped node was at depth below the limit,
    and [cutoff] exactly when some popped node, which failed the goal test,
    was at depth at least the limit. *)
Theorem C2_failure_or_cutoff
        (root : BinaryTreeNode) (g limit : Z) (fuel : nat)
        (r : SearchResult) :
  (forall n, r <> Found n) ->
  (Robot.depth_limited_search fuel (Robot.RoomNavigationProblem root g) limit
   = Some r ->
   let problem := Robot.RoomNavigationProblem root g in
   let visited :=
     popped frontier (Robot.loop_body problem limit) fuel
            (Robot.init problem) in
   (r = failure <->
    Forall (fun n => (Z.of_nat (depth n) < limit)%Z) visited) /\
   (r = cutoff <->
    Exists (fun n => Robot.is_goal problem (state n) = false /\
                     (limit <= Z.of_nat (depth n))%Z) visited))
  /\
  (Warehouse.depth_limited_search fuel (Warehouse.WarehouseProblem root g)
                                  limit
   = Some r ->
   let problem := Warehouse.WarehouseProblem root g in
   let visited :=
     popped frontier (Warehouse.loop_body problem limit) fuel
            (Warehouse.init problem) in
   (r = failure <->
    Forall (fun n => (Z.of_nat (depth n) < limit)%Z) visited) /\
   (r = cutoff <->
    Exists (fun n => Warehouse.is_goal problem (state n) = false /\
                     (limit <= Z.of_nat (depth n))%Z) visited)).
Proof.
  intros Hn. split; intros Hr problem visited.
  - apply (@dls_failure_or_cutoff
             (Robot.is_goal problem) (Robot.expand problem) limit fuel
             (Robot.init problem) r); [reflexivity|exact Hr|exact Hn].
  - apply (@dls_failure_or_cutoff
             (Warehouse.is_goal problem) (Warehouse.expand problem) limit
             fuel (Warehouse.init problem) r);
      [reflexivity|exact Hr|exact Hn].
Qed.

(** On the demonstration tree with the absent goal 99: limit 5 exhausts the
    tree (scenario 4 of the specification), limit 2 cuts at the leaves. *)
Lemma C2_witness :
  (let problem := Robot.RoomNavigationProblem demo_tree 99 in
   let visited :=
     popped frontier (Robot.loop_body problem 5) 10 (Robot.init problem) in
   (failure = failure <->
    Forall (fun n => (Z.of_nat (depth n) < 5)%Z) visited) /\
   (failure = cutoff <->
    Exists (fun n => Robot.is_goal problem (state n) = false /\
                     (5 <= Z.of_nat (depth n))%Z) visited))
  /\
  (let problem := Warehouse.WarehouseProblem demo_tree 99 in
   let visited :=
     popped frontier (Warehouse.loop_body problem 2) 10
            (Warehouse.init problem) in
   (cutoff = failure <->
    Forall (fun n => (Z.of_nat (depth n) < 2)%Z) visited) /\
   (cutoff = cutoff <->
    Exists (fun n => Warehouse.is_goal problem (state n) = false /\
                     (2 <= Z.of_nat (depth n))%Z) visited)).
Proof.
  split.
  - apply (@C2_failure_or_cutoff demo_tree 99 5 10 failure);
      [discriminate|reflexivity].
  - apply (@C2_failure_or_cutoff demo_tree 99 2 10 cutoff);
      [discriminate|reflexivity].
Defined.

(** ** The maximum loop of the investment file *)

Section Exhaustive.

Variables St R : Type.
Variable body : St -> Step St R.
Variable front : St -> list Node.
Variable expand : Node -> list Node.
Variable limit : Z.
Hypothesis Hev : evolves body front expand limit.
Hypothesis Hexp : expands_children expand.
Hypothesis Hret : forall st r, body st = Return r -> front st = [].

(** A loop that only returns on an empty frontier pops exactly the nodes
    that were within reach. *)
Lemma popped_reach :
  forall fuel st r,
    while_loop body fuel st = Some r ->
    Permutation (map state (popped front body fuel st))
                (reach limit (front st)).
Proof.
  induction fuel as [|fuel IH]; intros st r H; [discriminate|].
  cbn [while_loop popped] in *.
  destruct (body st) as [r'|st'] eqn:E.
  - rewrite (Hret E). rewrite pop_nil. constructor.
  - destruct (@reach_round _ _ body front expand limit Hev Hexp st st' E)
      as [rest [node [Hf [pre [post [H1 H2]]]]]].
    rewrite Hf at 1. rewrite pop_snoc, H1. cbn [map].
    apply Permutation_cons_app. rewrite <- H2. eapply IH; eassumption.
Qed.

End Exhaustive.

Section MaxLoop.

Variable problem : Investment.Problem.
Variable limit : Z.

Lemma max_body_cases (st : Investment.MaxState) :
  match Investment.loop_body problem limit st with
  | Return r =>
      Investment.mfrontier st = [] /\
      r = match Investment.max_value st with
          | Investment.NegInf => None
          | Investment.Int m => Some m
          end
  | Continue st' =>
      exists rest node,
        Investment.mfrontier st = rest ++ [node] /\
        Investment.max_value st'
        = score (value (state node)) (Investment.max_value st) /\
        (((limit <= Z.of_nat (depth node))%Z /\
          Investment.mfrontier st' = rest) \/
         ((Z.of_nat (depth node) < limit)%Z /\
          Investment.mfrontier st'
          = rest ++ Investment.expand problem node))
  end.
Proof.
  unfold Investment.loop_body.
  destruct (pop (Investment.mfrontier st)) as [[rest node]|] eqn:E.
  - apply pop_Some in E. cbv zeta.
    destruct (Z.ltb_spec (Z.of_nat (depth node)) limit);
      exists rest, node; simpl; auto.
  - apply pop_None in E. auto.
Qed.

Lemma max_evolves :
  evolves (Investment.loop_body problem limit) Investment.mfrontier
          (Investment.expand problem) limit.
Proof.
  intros st st' H. pose proof (max_body_cases st) as C. rewrite H in C.
  destruct C as [rest [node [Hf [_ C]]]]. exists rest, node. auto.
Qed.

Lemma max_returns_empty (st : Investment.MaxState) (r : option Z) :
  Investment.loop_body problem limit st = Return r ->
  Investment.mfrontier st = [].
Proof.
  intros H. pose proof (max_body_cases st) as C. rewrite H in C. apply C.
Qed.

End MaxLoop.

Lemma le_Num_score_self (v : Z) (m : Investment.Num) : le_Num v (score v m).
Proof.
  unfold score. destruct m as [|y]; simpl; [lia|].
  destruct (Z.gtb_spec v y); simpl; lia.
Qed.

Lemma le_Num_score (x v : Z) (m : Investment.Num) :
  le_Num x m -> le_Num x (score v m).
Proof.
  unfold score. destruct m as [|y]; simpl; [contradiction|].
  destruct (Z.gtb_spec v y); simpl; lia.
Qed.

Lemma score_cases (v : Z) (m : Investment.Num) :
  score v m = Investment.Int v \/ score v m = m.
Proof. unfold score. destruct (Investment.gtb v m); auto. Qed.

Lemma Investment_expands (o : option BinaryTreeNode) :
  expands_children (Investment.expand (Investment.InvestmentProblem o)).
Proof.
  intros n. exists 0%Z. unfold Investment.expand. simpl.
  rewrite Investment_actions_children. reflexivity.
Qed.

Lemma max_inv_init (root : BinaryTreeNode) (limit : Z) :
  max_inv root limit (Investment.init root).
Proof.
  unfold max_inv, Investment.init.
  cbn [Investment.mfrontier Investment.max_value].
  rewrite reach_init. auto.
Qed.

Lemma max_inv_round (o : option BinaryTreeNode) (root : BinaryTreeNode)
      (limit : Z) (st st' : Investment.MaxState) :
  Investment.loop_body (Investment.InvestmentProblem o) limit st
  = Continue st' ->
  max_inv root limit st -> max_inv root limit st'.
Proof.
  intros E [I1 [I2 I3]].
  pose proof (max_body_cases (Investment.InvestmentProblem o) limit st) as C.
  rewrite E in C. destruct C as [rest [node [Hf [Hm _]]]].
  destruct (@reach_round_In _ _ _ _ _ _
              (max_evolves (Investment.InvestmentProblem o) limit)
              (Investment_expands o) st st' E)
    as [rest' [node' [Hf' Hin]]].
  rewrite Hf in Hf'. apply app_inj_tail in Hf'. destruct Hf' as [_ <-].
  assert (Hnode : In (state node) (subtrees_upto (Z.to_nat limit) root)).
  { apply I3. apply Hin. now left. }
  unfold max_inv. rewrite Hm. repeat split.
  - intros x Hx. destruct (I1 x Hx) as [Hr|Hl].
    + apply Hin in Hr. destruct Hr as [->|Hr]; [right|now left].
      apply le_Num_score_self.
    + right. now apply le_Num_score.
  - destruct (score_cases (value (state node)) (Investment.max_value st))
      as [-> | ->]; [right|assumption].
    exists (state node). auto.
  - intros x Hx. apply I3. apply Hin. now right.
Qed.

Lemma max_inv_reaches (o : option BinaryTreeNode) (root : BinaryTreeNode)
      (limit : Z) (st st' : Investment.MaxState) :
  reaches (Investment.loop_body (Investment.InvestmentProblem o) limit)
          st st' ->
  max_inv root limit st -> max_inv root limit st'.
Proof.
  intros Hr H0. induction Hr as [|s1 s2 _ IH Hstep]; [assumption|].
  eapply max_inv_round; eauto.
Qed.

(** The maximum search returns the maximum over the nodes at depth at most
    the limit, which are exactly the nodes it scores. *)
Lemma max_search_correct (root : BinaryTreeNode) (limit : Z) :
  let problem := Investment.InvestmentProblem (Some root) in
  let fuel := S (length (subtrees_upto (Z.to_nat limit) root)) in
  exists m,
    (forall extra,
        Investment.depth_limited_search_max (fuel + extra) problem limit
        = Some (Some m)) /\
    is_max m (values_upto (Z.to_nat limit) root) /\
    Permutation
      (map state (popped Investment.mfrontier
                         (Investment.loop_body problem limit)
                         fuel (Investment.init root)))
      (subtrees_upto (Z.to_nat limit) root).
Proof.
  intros problem fuel.
  pose proof (max_evolves problem limit) as Hev.
  pose proof (Investment_expands (Some root)) as Hexp.
  destruct (@loop_terminates _ _ _ _ _ _ Hev Hexp fuel
                             (Investment.init root)) as [r Hr].
  { unfold Investment.init. cbn [Investment.mfrontier].
    rewrite reach_init. unfold fuel. lia. }
  pose proof (popped_reach Hev Hexp (@max_returns_empty problem limit)
                           _ _ Hr) as HP.
  unfold Investment.init in HP at 2. cbn [Investment.mfrontier] in HP.
  rewrite reach_init in HP.
  destruct (while_loop_returns _ _ _ Hr) as [st' [Hreach Hb]].
  pose proof (max_inv_reaches Hreach (max_inv_init root limit))
    as [I1 [I2 _]].
  pose proof (max_body_cases problem limit st') as C. rewrite Hb in C.
  destruct C as [Hf ->]. rewrite Hf in I1.
  assert (Hbelow : forall x, In x (subtrees_upto (Z.to_nat limit) root) ->
                             le_Num (value x) (Investment.max_value st')).
  { intros x Hx. destruct (I1 x Hx) as [[]|Hl]. exact Hl. }
  destruct I2 as [I2|[x [Hx I2]]].
  - pose proof (Hbelow root (subtrees_upto_self _ root)) as Hroot.
    rewrite I2 in Hroot. destruct Hroot.
  - rewrite I2 in Hr, Hbelow. exists (value x). repeat split.
    + intros extra.
      unfold Investment.depth_limited_search_max, problem.
      cbn [Investment.initial Investment.InvestmentProblem].
      now apply while_loop_more.
    + unfold values_upto. now apply in_map.
    + intros v Hv. unfold values_upto in Hv. apply in_map_iff in Hv.
      destruct Hv as [y [<- Hy]]. exact (Hbelow y Hy).
    + exact HP.
Qed.

(** C3. [depth_limited_search_max] returns [None] when the problem has no
    initial state. On a tree with root [root] it returns the maximum of the
    payloads of the nodes at depth at most the limit ([Z.to_nat] reads a
    negative limit as 0, where only the root is scored); the nodes it scores
    are exactly those nodes, so a node at depth exactly the limit is scored
    and its children are not visited; and with limit 0 the value returned is
    the payload of the root. *)
Theorem C3_max_within_limit :
  (forall fuel limit,
      Investment.depth_limited_search_max
        fuel (Investment.InvestmentProblem None) limit = Some None) /\
  (forall root limit,
      let problem := Investment.InvestmentProblem (Some root) in
      let fuel := S (length (subtrees_upto (Z.to_nat limit) root)) in
      exists m,
        (forall extra,
            Investment.depth_limited_search_max (fuel + extra) problem limit
            = Some (Some m)) /\
        is_max m (values_upto (Z.to_nat limit) root) /\
        Permutation
          (map state (popped Investment.mfrontier
                             (Investment.loop_body problem limit)
                             fuel (Investment.init root)))
          (subtrees_upto (Z.to_nat limit) root)) /\
  (forall root extra,
      Investment.depth_limited_search_max
        (2 + extra) (Investment.InvestmentProblem (Some root)) 0
      = Some (Some (value root))).
Proof.
  split; [reflexivity|]. split; [exact max_search_correct|].
  intros root extra.
  destruct (max_search_correct root 0%Z) as [m [Hm [[Hin _] _]]].
  specialize (Hm extra). unfold values_upto in Hin.
  change (Z.to_nat 0) with 0 in Hin, Hm. rewrite subtrees_upto_0 in Hin, Hm.
  destruct Hin as [<-|[]]. exact Hm.
Qed.

(** A goal node on top of the frontier is returned at once. *)
Lemma dls_goal_first (is_goal : BinaryTreeNode -> bool)
      (expand : Node -> list Node) (limit : Z)
      (rest : list Node) (node : Node) (res : SearchResult) (fuel : nat) :
  is_goal (state node) = true ->
  while_loop (dls_body is_goal expand limit) (S fuel)
             (mkLoopState (rest ++ [node]) res)
  = Some (Found node).
Proof.
  intros G. cbn [while_loop]. unfold dls_body. cbn [frontier].
  rewrite pop_snoc, G. reflexivity.
Qed.

(** C4. A popped node is tested with [is_goal] before its depth is compared
    with the limit: when the node on top of the frontier satisfies the goal
    test, the loop returns that node at once, whatever its depth and in
    particular at depth equal to the limit, and whatever the tentative result
    was. On the tree 1(2(-,4), 3(5,-)) with goal 4 and limit 2 the search
    returns the search node of depth 2 whose state has value 4, reached
    through the states 1 and 2. *)
Theorem C4_goal_test_before_limit :
  (forall (problem : Robot.Problem) (limit : Z) (rest : list Node)
          (node : Node) (res : SearchResult) (fuel : nat),
      Robot.is_goal problem (state node) = true ->
      Robot.loop_body problem limit (mkLoopState (rest ++ [node]) res)
      = Return (Found node) /\
      while_loop (Robot.loop_body problem limit) (S fuel)
                 (mkLoopState (rest ++ [node]) res)
      = Some (Found node)) /\
  (exists n p,
      (forall extra,
          Robot.depth_limited_search
            (5 + extra) (Robot.RoomNavigationProblem demo_tree 4) 2
          = Some (Found n)) /\
      value (state n) = 4%Z /\ depth n = 2 /\
      parent n = Some p /\ value (state p) = 2%Z /\
      parent p = Some (Node_of demo_tree)).
Proof.
  split.
  - intros problem limit rest node res fuel G. split.
    + unfold Robot.loop_body. cbn [frontier]. rewrite pop_snoc, G.
      reflexivity.
    + now apply dls_goal_first.
  - eexists. eexists. split.
    + intros extra.
      apply (@while_loop_more _ _ _ 5 _ _ extra). vm_compute. reflexivity.
    + cbn [state parent value depth]. repeat (split; [reflexivity|]).
      reflexivity.
Qed.

Lemma C4_witness :
  let problem := Robot.RoomNavigationProblem demo_tree 4 in
  let two := mkNode (mkBinaryTreeNode 2 None (Some (leaf 4)))
                    (Some (Node_of demo_tree))
                    (Some (mkBinaryTreeNode 2 None (Some (leaf 4)))) 0 in
  let four := mkNode (leaf 4) (Some two) (Some (leaf 4)) 0 in
  Z.of_nat (depth four) = 2%Z /\
  Robot.loop_body problem 2 (mkLoopState ([] ++ [four]) cutoff)
  = Return (Found four) /\
  while_loop (Robot.loop_body problem 2) 1
             (mkLoopState ([] ++ [four]) cutoff)
  = Some (Found four).
Proof.
  intros problem two four. split; [reflexivity|].
  apply (proj1 C4_goal_test_before_limit problem 2%Z [] four cutoff 0);
    reflexivity.
Defined.

(** With limit 0 and a root that is not the goal, the loop goes round once:
    the root is popped, tested and cut, and nothing is pushed. *)
Lemma dls_limit_zero (g : Z) (expand : Node -> list Node)
      (root : BinaryTreeNode) :
  value root <> g ->
  let body := dls_body (fun s => (value s =? g)%Z) expand 0 in
  let st0 := mkLoopState [Node_of root] failure in
  (forall extra, while_loop body (2 + extra) st0 = Some cutoff) /\
  (forall extra, popped frontier body (2 + extra) st0 = [Node_of root]) /\
  (forall st, reaches body st0 st -> st = st0 \/ st = mkLoopState [] cutoff).
Proof.
  intros Hg body st0.
  assert (G : (value root =? g)%Z = false) by now apply Z.eqb_neq.
  assert (B0 : body st0 = Continue (mkLoopState [] cutoff)).
  { unfold body, st0, dls_body. cbn [frontier]. rewrite pop_singleton.
    cbn [state Node_of]. rewrite G. reflexivity. }
  assert (B1 : body (mkLoopState [] cutoff) = Return cutoff) by reflexivity.
  repeat split.
  - intros extra. cbn [Nat.add while_loop]. rewrite B0, B1. reflexivity.
  - intros extra. cbn [Nat.add popped]. rewrite B0. unfold st0.
    cbn [frontier]. rewrite pop_singleton. reflexivity.
  - intros st Hr. induction Hr as [|s1 s2 _ IH Hstep]; [now left|].
    destruct IH as [-> | ->]; [right; congruence|congruence].
Qed.

(** C5. When the root is not the goal, [depth_limited_search] with limit 0
    (robot file and warehouse file) returns [cutoff]; the only node ever
    popped, so goal-tested, is the root's, and the frontier only ever holds
    that node and then nothing: no successor is created or pushed. *)
Theorem C5_limit_zero_cutoff (root : BinaryTreeNode) (g : Z) :
  value root <> g ->
  (let problem := Robot.RoomNavigationProblem root g in
   (forall extra,
       Robot.depth_limited_search (2 + extra) problem 0 = Some cutoff) /\
   (forall extra,
       popped frontier (Robot.loop_body problem 0) (2 + extra)
              (Robot.init problem) = [Node_of root]) /\
   (forall st,
       reaches (Robot.loop_body problem 0) (Robot.init problem) st ->
       st = Robot.init problem \/ st = mkLoopState [] cutoff)) /\
  (let problem := Warehouse.WarehouseProblem root g in
   (forall extra,
       Warehouse.depth_limited_search (2 + extra) problem 0 = Some cutoff) /\
   (forall extra,
       popped frontier (Warehouse.loop_body problem 0) (2 + extra)
              (Warehouse.init problem) = [Node_of root]) /\
   (forall st,
       reaches (Warehouse.loop_body problem 0) (Warehouse.init problem) st ->
       st = Warehouse.init problem \/ st = mkLoopState [] cutoff)).
Proof.
  intros Hg. split; intros problem.
  - exact (@dls_limit_zero g (Robot.expand problem) root Hg).
  - exact (@dls_limit_zero g (Warehouse.expand problem) root Hg).
Qed.

Lemma C5_witness :
  (forall extra,
      Robot.depth_limited_search
        (2 + extra) (Robot.RoomNavigationProblem demo_tree 4) 0
      = Some cutoff) /\
  (forall extra,
      Warehouse.depth_limited_search
        (2 + extra) (Warehouse.WarehouseProblem demo_tree 4) 0
      = Some cutoff).
Proof.
  assert (H : value demo_tree <> 4%Z) by (simpl; lia).
  split.
  - apply (proj1 (@C5_limit_zero_cutoff demo_tree 4 H)).
  - apply (proj2 (@C5_limit_zero_cutoff demo_tree 4 H)).
Defined.

(** ** Path cost *)

Lemma cost_is_depth_path_cost (n : Node) :
  cost_is_depth n -> path_cost n = Z.of_nat (depth n).
Proof.
  destruct n as [s [p|] a c]; simpl.
  - intros [-> _]. reflexivity.
  - intros ->. reflexivity.
Qed.

Lemma Warehouse_cost_invariant (problem : Warehouse.Problem) (limit : Z)
      (st : LoopState) :
  reaches (Warehouse.loop_body problem limit) (Warehouse.init problem) st ->
  Forall cost_is_depth (frontier st).
Proof.
  intros Hr.
  apply (@frontier_invariant
           _ _ (Warehouse.loop_body problem limit) frontier
           (Warehouse.expand problem) limit
           (@dls_evolves (Warehouse.is_goal problem)
                         (Warehouse.expand problem) limit)
           cost_is_depth) with (st := Warehouse.init problem).
  - intros n c Pn _ Hc. unfold Warehouse.expand in Hc.
    apply in_map_iff in Hc. destruct Hc as [a [<- _]].
    simpl. split; [|assumption].
    rewrite (cost_is_depth_path_cost _ Pn). lia.
  - exact Hr.
  - constructor; [reflexivity|constructor].
Qed.

(** C6, as the code has it. In the warehouse file every node yielded by
    [expand] has the parent's path cost plus 1 (the default step cost), so
    every search node on the frontier of the warehouse search, and every node
    it returns, has path cost equal to its depth, the root having cost 0. In
    the robot file [expand] passes no path cost: every node it yields has the
    constructor's default 0. *)
Theorem C6_path_cost_accumulates_in_warehouse :
  (forall (problem : Warehouse.Problem) (node c : Node),
      In c (Warehouse.expand problem node) ->
      parent c = Some node /\
      path_cost c
      = (path_cost node
         + Warehouse.action_cost problem (state node) (state c) (state c))%Z)
  /\
  (forall (problem : Warehouse.Problem) (limit : Z) (st : LoopState)
          (n : Node),
      reaches (Warehouse.loop_body problem limit)
              (Warehouse.init problem) st ->
      In n (frontier st) -> path_cost n = Z.of_nat (depth n)) /\
  (forall (problem : Warehouse.Problem) (limit : Z) (fuel : nat) (n : Node),
      Warehouse.depth_limited_search fuel problem limit = Some (Found n) ->
      path_cost n = Z.of_nat (depth n)) /\
  (forall (problem : Robot.Problem) (node c : Node),
      In c (Robot.expand problem node) ->
      parent c = Some node /\ path_cost c = 0%Z).
Proof.
  repeat split.
  - unfold Warehouse.expand in H. apply in_map_iff in H.
    destruct H as [a [<- _]]. reflexivity.
  - unfold Warehouse.expand in H. apply in_map_iff in H.
    destruct H as [a [<- _]]. reflexivity.
  - intros problem limit st n Hr Hin.
    apply cost_is_depth_path_cost.
    pose proof (Warehouse_cost_invariant Hr) as HF.
    rewrite Forall_forall in HF. now apply HF.
  - intros problem limit fuel n H.
    unfold Warehouse.depth_limited_search in H.
    apply (@dls_found (Warehouse.is_goal problem)
                      (Warehouse.expand problem) limit) in H;
      [|now left].
    destruct H as [_ [st' [Hr Hin]]].
    apply cost_is_depth_path_cost.
    pose proof (Warehouse_cost_invariant Hr) as HF.
    rewrite Forall_forall in HF. now apply HF.
  - unfold Robot.expand in H. apply in_map_iff in H.
    destruct H as [a [<- _]]. reflexivity.
  - unfold Robot.expand in H. apply in_map_iff in H.
    destruct H as [a [<- _]]. reflexivity.
Qed.

(** The warehouse search on the demonstration tree returns the node of
    value 4 with path cost 2, its depth. *)
Lemma C6_witness :
  let n :=
    mkNode (leaf 4)
           (Some (mkNode (mkBinaryTreeNode 2 None (Some (leaf 4)))
                         (Some (Node_of demo_tree))
                         (Some (mkBinaryTreeNode 2 None (Some (leaf 4))))
                         1))
           (Some (leaf 4)) 2 in
  Warehouse.depth_limited_search
    5 (Warehouse.WarehouseProblem demo_tree 4) 2 = Some (Found n) /\
  path_cost n = Z.of_nat (depth n).
Proof.
  intros n. assert (H : Warehouse.depth_limited_search
                          5 (Warehouse.WarehouseProblem demo_tree 4) 2
                        = Some (Found n)) by reflexivity.
  split; [exact H|].
  exact (proj1 (proj2 (proj2 C6_path_cost_accumulates_in_warehouse))
               (Warehouse.WarehouseProblem demo_tree 4) 2%Z 5 n H).
Defined.

(** C6, as stated, fails in the robot file: the children of the root of the
    demonstration tree are yielded with path cost 0, which is neither the
    root's path cost plus 1 nor their depth. *)
Lemma C6_counterexample :
  let problem := Robot.RoomNavigationProblem demo_tree 4 in
  let node := Node_of demo_tree in
  exists c,
    In c (Robot.expand problem node) /\
    path_cost c
    <> (path_cost node
        + Robot.action_cost problem (state node) (state c) (state c))%Z /\
    path_cost c <> Z.of_nat (depth c).
Proof.
  intros problem node. eexists. split; [left; reflexivity|].
  split; vm_compute; discriminate.
Qed.

(** ** Frontier invariants *)

Section FrontierInvariants.

Variables St R : Type.
Variable body : St -> Step St R.
Variable front : St -> list Node.
Variable expand : Node -> list Node.
Variable limit : Z.
Hypothesis Hev : evolves body front expand limit.
Hypothesis Hexp : expands_children expand.

(** With a limit that is not negative, no node deeper than the limit is
    ever on the frontier. *)
Lemma depth_invariant (st0 st : St) :
  (0 <= limit)%Z ->
  reaches body st0 st ->
  Forall (fun n => (Z.of_nat (depth n) <= limit)%Z) (front st0) ->
  Forall (fun n => (Z.of_nat (depth n) <= limit)%Z) (front st).
Proof.
  intros Hl Hr H0.
  apply (@frontier_invariant _ _ body front expand limit Hev
                             (fun n => (Z.of_nat (depth n) <= limit)%Z))
    with (st := st0); [|exact Hr|exact H0].
  intros n c _ Hlt Hc. rewrite (expand_depth Hexp _ _ Hc). lia.
Qed.

(** Every node on the frontier is a path witness. *)
Lemma path_invariant (root : BinaryTreeNode) (st0 st : St) :
  reaches body st0 st ->
  Forall (path_witness root) (front st0) ->
  Forall (path_witness root) (front st).
Proof.
  intros Hr H0.
  apply (@frontier_invariant _ _ body front expand limit Hev
                             (path_witness root))
    with (st := st0); [|exact Hr|exact H0].
  intros n c Pn _ Hc. exact (expand_path_witness Hexp _ _ _ Pn Hc).
Qed.

(** The loop pops at most as many nodes as are within reach. *)
Lemma popped_bound :
  forall fuel st,
    length (popped front body fuel st) <= length (reach limit (front st)).
Proof.
  induction fuel as [|fuel IH]; intros st; [simpl; lia|].
  cbn [popped].
  destruct (pop (front st)) as [[rest node]|] eqn:E; [|simpl; lia].
  apply pop_Some in E.
  destruct (body st) as [r|st'] eqn:B.
  - rewrite E, reach_app, length_app. unfold reach at 2. cbn [flat_map].
    rewrite app_nil_r.
    pose proof (subtrees_upto_self (budget limit node) (state node)) as Hin.
    destruct (subtrees_upto (budget limit node) (state node));
      [destruct Hin|simpl; lia].
  - rewrite (@reach_round_length _ _ body front expand limit Hev Hexp
                                 st st' B).
    cbn [length]. specialize (IH st'). lia.
Qed.

End FrontierInvariants.

(** C7. With a limit that is not negative, every node that is ever on the
    frontier of [depth_limited_search] (warehouse and robot files) and of
    [depth_limited_search_max] has depth at most the limit. In any state of
    either loop, a popped node of depth at least the limit that is not
    returned is not expanded: the frontier just loses it, and the search
    loop records [cutoff] as its result. *)
Theorem C7_frontier_within_limit (root : BinaryTreeNode) (g limit : Z) :
  (0 <= limit)%Z ->
  (let problem := Warehouse.WarehouseProblem root g in
   forall st,
     reaches (Warehouse.loop_body problem limit) (Warehouse.init problem) st ->
     Forall (fun n => (Z.of_nat (depth n) <= limit)%Z) (frontier st)) /\
  (let problem := Robot.RoomNavigationProblem root g in
   forall st,
     reaches (Robot.loop_body problem limit) (Robot.init problem) st ->
     Forall (fun n => (Z.of_nat (depth n) <= limit)%Z) (frontier st)) /\
  (let problem := Investment.InvestmentProblem (Some root) in
   forall st,
     reaches (Investment.loop_body problem limit) (Investment.init root) st ->
     Forall (fun n => (Z.of_nat (depth n) <= limit)%Z)
            (Investment.mfrontier st)) /\
  (forall st st' rest node,
      frontier st = rest ++ [node] ->
      (limit <= Z.of_nat (depth node))%Z ->
      (Warehouse.loop_body (Warehouse.WarehouseProblem root g) limit st
       = Continue st' -> st' = mkLoopState rest cutoff) /\
      (Robot.loop_body (Robot.RoomNavigationProblem root g) limit st
       = Continue st' -> st' = mkLoopState rest cutoff)) /\
  (forall st st' rest node,
      Investment.mfrontier st = rest ++ [node] ->
      (limit <= Z.of_nat (depth node))%Z ->
      Investment.loop_body (Investment.InvestmentProblem (Some root)) limit st
      = Continue st' ->
      Investment.mfrontier st' = rest).
Proof.
  intros Hl.
  assert (H0 : Forall (fun n => (Z.of_nat (depth n) <= limit)%Z)
                      [Node_of root])
    by (constructor; [simpl; lia|constructor]).
  split; [|split; [|split; [|split]]].
  - intros problem st Hr.
    exact (depth_invariant
             (@dls_evolves (Warehouse.is_goal problem)
                           (Warehouse.expand problem) limit)
             (Warehouse_expands root g) Hl Hr H0).
  - intros problem st Hr.
    exact (depth_invariant
             (@dls_evolves (Robot.is_goal problem)
                           (Robot.expand problem) limit)
             (Robot_expands root g) Hl Hr H0).
  - intros problem st Hr.
    exact (depth_invariant (max_evolves problem limit)
                           (Investment_expands (Some root)) Hl Hr H0).
  - intros st st' rest node Hf Hge. split; intros B.
    + pose proof (dls_body_cases
                    (Warehouse.is_goal (Warehouse.WarehouseProblem root g))
                    (Warehouse.expand (Warehouse.WarehouseProblem root g))
                    limit st) as C.
      change (dls_body _ _ _ st)
        with (Warehouse.loop_body (Warehouse.WarehouseProblem root g)
                                  limit st) in C.
      rewrite B in C. destruct C as [rest' [node' [Hf' [_ C]]]].
      rewrite Hf in Hf'. apply app_inj_tail in Hf'.
      destruct Hf' as [<- <-]. destruct C as [[_ ->]|[Hlt _]];
        [reflexivity|lia].
    + pose proof (dls_body_cases
                    (Robot.is_goal (Robot.RoomNavigationProblem root g))
                    (Robot.expand (Robot.RoomNavigationProblem root g))
                    limit st) as C.
      change (dls_body _ _ _ st)
        with (Robot.loop_body (Robot.RoomNavigationProblem root g)
                              limit st) in C.
      rewrite B in C. destruct C as [rest' [node' [Hf' [_ C]]]].
      rewrite Hf in Hf'. apply app_inj_tail in Hf'.
      destruct Hf' as [<- <-]. destruct C as [[_ ->]|[Hlt _]];
        [reflexivity|lia].
  - intros st st' rest node Hf Hge B.
    pose proof (max_body_cases (Investment.InvestmentProblem (Some root))
                               limit st) as C.
    rewrite B in C. destruct C as [rest' [node' [Hf' [_ C]]]].
    rewrite Hf in Hf'. apply app_inj_tail in Hf'.
    destruct Hf' as [<- <-]. destruct C as [[_ E]|[Hlt _]];
      [exact E|lia].
Qed.

(** On the demonstration trees with limit 1: after the first round the
    frontiers hold the two children of the root, at depth 1. *)
Lemma C7_witness :
  let wp := Warehouse.WarehouseProblem demo_tree 4 in
  let ip := Investment.InvestmentProblem (Some demo_investment) in
  Forall (fun n => (Z.of_nat (depth n) <= 1)%Z)
         (frontier (mkLoopState (Warehouse.expand wp (Node_of demo_tree))
                                failure)) /\
  Forall (fun n => (Z.of_nat (depth n) <= 1)%Z)
         (Investment.mfrontier
            (Investment.mkMaxState
               (Investment.expand ip (Node_of demo_investment))
               (Investment.Int 3))).
Proof.
  intros wp ip.
  assert (Hl : (0 <= 1)%Z) by lia.
  split.
  - apply (proj1 (@C7_frontier_within_limit demo_tree 4 1 Hl)).
    eapply reaches_step; [apply reaches_refl|reflexivity].
  - apply (proj1 (proj2 (proj2
             (@C7_frontier_within_limit demo_investment 4 1 Hl)))).
    eapply reaches_step; [apply reaches_refl|reflexivity].
Defined.

(** ** Returned nodes *)

Lemma dls_returned_node (expand : Node -> list Node)
      (root : BinaryTreeNode) (g limit : Z) (fuel : nat) (n : Node) :
  expands_children expand ->
  while_loop (dls_body (fun s => (value s =? g)%Z) expand limit) fuel
             (mkLoopState [Node_of root] failure) = Some (Found n) ->
  path_witness root n /\ value (state n) = g /\
  ((0 <= limit)%Z -> (Z.of_nat (depth n) <= limit)%Z).
Proof.
  intros Hexp H.
  apply dls_found in H; [|now left].
  destruct H as [G [st' [Hr Hin]]].
  pose proof (@dls_evolves (fun s => (value s =? g)%Z) expand limit) as Hev.
  split; [|split].
  - assert (HF : Forall (path_witness root) (frontier st')).
    { apply (path_invariant Hev Hexp root Hr).
      constructor; [reflexivity|constructor]. }
    rewrite Forall_forall in HF. now apply HF.
  - now apply Z.eqb_eq.
  - intros Hl.
    assert (HF : Forall (fun n => (Z.of_nat (depth n) <= limit)%Z)
                        (frontier st')).
    { apply (depth_invariant Hev Hexp Hl Hr).
      constructor; [simpl; lia|constructor]. }
    rewrite Forall_forall in HF. now apply HF.
Qed.

(** C8. A node returned as a goal by [depth_limited_search] (robot file and
    warehouse file) is a path witness: its parent chain ends in a search node
    without parent whose state is the problem's initial state, and the state
    of each node of the chain is the left or the right child of the state of
    its parent; its state carries the goal value; it is neither sentinel; and
    when the limit is not negative its depth is at most the limit. *)
Theorem C8_returned_node_is_path_witness
        (root : BinaryTreeNode) (g limit : Z) (fuel : nat) (n : Node) :
  Robot.depth_limited_search fuel (Robot.RoomNavigationProblem root g) limit
  = Some (Found n) \/
  Warehouse.depth_limited_search fuel (Warehouse.WarehouseProblem root g)
                                 limit
  = Some (Found n) ->
  path_witness root n /\
  value (state n) = g /\
  Found n <> failure /\ Found n <> cutoff /\
  ((0 <= limit)%Z -> (Z.of_nat (depth n) <= limit)%Z).
Proof.
  intros [H|H].
  - destruct (@dls_returned_node _ root g limit fuel n
                                 (Robot_expands root g) H) as [P [V D]].
    repeat split; try assumption; discriminate.
  - destruct (@dls_returned_node _ root g limit fuel n
                                 (Warehouse_expands root g) H) as [P [V D]].
    repeat split; try assumption; discriminate.
Qed.

Lemma C8_witness :
  let two := mkBinaryTreeNode 2 None (Some (leaf 4)) in
  let n := mkNode (leaf 4)
                  (Some (mkNode two (Some (Node_of demo_tree)) (Some two) 0))
                  (Some (leaf 4)) 0 in
  path_witness demo_tree n /\
  value (state n) = 4%Z /\
  Found n <> failure /\ Found n <> cutoff /\
  ((0 <= 2)%Z -> (Z.of_nat (depth n) <= 2)%Z).
Proof.
  intros two n.
  apply (@C8_returned_node_is_path_witness demo_tree 4 2 5 n).
  left. reflexivity.
Defined.

(** ** The robot and the warehouse search agree *)

Lemma pop_Forall2 (A B : Type) (Rel : A -> B -> Prop) (l1 : list A)
      (l2 : list B) :
  Forall2 Rel l1 l2 ->
  match pop l1, pop l2 with
  | None, None => l1 = [] /\ l2 = []
  | Some (r1, x1), Some (r2, x2) =>
      l1 = r1 ++ [x1] /\ l2 = r2 ++ [x2] /\ Forall2 Rel r1 r2 /\ Rel x1 x2
  | _, _ => False
  end.
Proof.
  intros HF. destruct l1 as [|a l1] using rev_ind.
  - inversion HF; subst. simpl. auto.
  - clear IHl1. apply Forall2_app_inv_l in HF.
    destruct HF as [r2 [s2 [Hr [Hs ->]]]].
    inversion Hs as [|x y l l' Hxy Hnil]; subst.
    inversion Hnil; subst. rewrite !pop_snoc. auto.
Qed.

Section Agreement.

Variable is_goal : BinaryTreeNode -> bool.
Variables expand1 expand2 : Node -> list Node.
Variable limit : Z.
Hypothesis Hexp1 : expands_children expand1.
Hypothesis Hexp2 : expands_children expand2.

Lemma expand_same_place (n1 n2 : Node) :
  same_place n1 n2 -> Forall2 same_place (expand1 n1) (expand2 n2).
Proof.
  intros [Hs Hd].
  destruct (Hexp1 n1) as [c1 ->]. destruct (Hexp2 n2) as [c2 ->].
  rewrite Hs. induction (children (state n2)) as [|a l IH]; cbn [map];
    constructor; [|exact IH].
  split; [reflexivity|]. cbn [depth]. now rewrite Hd.
Qed.

Lemma dls_round_agrees (st1 st2 : LoopState) :
  Forall2 same_place (frontier st1) (frontier st2) ->
  classify (result st1) = classify (result st2) ->
  match dls_body is_goal expand1 limit st1,
        dls_body is_goal expand2 limit st2 with
  | Return r1, Return r2 => classify r1 = classify r2
  | Continue a, Continue b =>
      Forall2 same_place (frontier a) (frontier b) /\
      classify (result a) = classify (result b)
  | _, _ => False
  end.
Proof.
  intros HF HR. unfold dls_body. pose proof (pop_Forall2 HF) as P.
  destruct (pop (frontier st1)) as [[r1 x1]|];
    destruct (pop (frontier st2)) as [[r2 x2]|]; try contradiction.
  - destruct P as [_ [_ [Hr [Hs Hd]]]]. rewrite Hs, Hd.
    destruct (is_goal (state x2)); [simpl; now rewrite Hs|].
    destruct (Z.of_nat (depth x2) >=? limit)%Z; cbn [frontier result].
    + split; [assumption|reflexivity].
    + split; [|assumption]. apply Forall2_app; [assumption|].
      apply expand_same_place. now split.
  - assumption.
Qed.

Lemma dls_agrees :
  forall fuel st1 st2,
    Forall2 same_place (frontier st1) (frontier st2) ->
    classify (result st1) = classify (result st2) ->
    option_map classify
               (while_loop (dls_body is_goal expand1 limit) fuel st1)
    = option_map classify
                 (while_loop (dls_body is_goal expand2 limit) fuel st2).
Proof.
  induction fuel as [|fuel IH]; intros st1 st2 HF HR; [reflexivity|].
  cbn [while_loop]. pose proof (@dls_round_agrees st1 st2 HF HR) as P.
  destruct (dls_body is_goal expand1 limit st1) as [r1|a];
    destruct (dls_body is_goal expand2 limit st2) as [r2|b];
    try contradiction.
  - simpl. now rewrite P.
  - destruct P as [PF PR]. now apply IH.
Qed.

End Agreement.

Lemma subtrees_upto_length :
  forall t b, length (subtrees_upto b t) <= length (subtrees t).
Proof.
  induction t as [v l Hl r Hr]. intros b.
  destruct b as [|b]; simpl; [lia|]. rewrite !length_app.
  destruct Hl as [l IHl|]; destruct Hr as [r IHr|]; simpl;
    try specialize (IHl b); try specialize (IHr b); lia.
Qed.

(** C9. The two [actions] methods select the same children, truthiness and
    [is not None] agreeing on child references; and on every tree, goal and
    limit the robot and the warehouse [depth_limited_search] return, with
    the same outcome: a goal node with the same state, [failure], or
    [cutoff]. The path costs, which only the warehouse file accumulates, do
    not enter the outcome. *)
Theorem C9_robot_warehouse_agree (root : BinaryTreeNode) (g limit : Z) :
  (forall s, Robot.RoomNavigation_actions s = Warehouse.Warehouse_actions s)
  /\
  (forall fuel,
      option_map classify
                 (Robot.depth_limited_search
                    fuel (Robot.RoomNavigationProblem root g) limit)
      = option_map classify
                   (Warehouse.depth_limited_search
                      fuel (Warehouse.WarehouseProblem root g) limit)) /\
  (exists r1 r2,
      (forall extra,
          Robot.depth_limited_search
            (S (length (subtrees_upto (Z.to_nat limit) root)) + extra)
            (Robot.RoomNavigationProblem root g) limit = Some r1) /\
      (forall extra,
          Warehouse.depth_limited_search
            (S (length (subtrees_upto (Z.to_nat limit) root)) + extra)
            (Warehouse.WarehouseProblem root g) limit = Some r2) /\
      classify r1 = classify r2).
Proof.
  assert (A : forall fuel,
      option_map classify
                 (Robot.depth_limited_search
                    fuel (Robot.RoomNavigationProblem root g) limit)
      = option_map classify
                   (Warehouse.depth_limited_search
                      fuel (Warehouse.WarehouseProblem root g) limit)).
  { intros fuel.
    apply (@dls_agrees (fun s => (value s =? g)%Z) _ _ limit
                       (Robot_expands root g) (Warehouse_expands root g)).
    - constructor; [split; reflexivity|constructor].
    - reflexivity. }
  split; [|split; [exact A|]].
  - intros s.
    now rewrite RoomNavigation_actions_children, Warehouse_actions_children.
  - destruct (@dls_found_iff_within _ root g limit (Robot_expands root g))
      as [r1 [T1 _]].
    destruct (@dls_found_iff_within _ root g limit (Warehouse_expands root g))
      as [r2 [T2 _]].
    exists r1, r2. split; [exact T1|]. split; [exact T2|].
    specialize (A (S (length (subtrees_upto (Z.to_nat limit) root)) + 0)).
    unfold Robot.depth_limited_search, Warehouse.depth_limited_search in A.
    change (Robot.loop_body (Robot.RoomNavigationProblem root g) limit)
      with (dls_body (fun s => (value s =? g)%Z)
                     (Robot.expand (Robot.RoomNavigationProblem root g))
                     limit) in A.
    change (Warehouse.loop_body (Warehouse.WarehouseProblem root g) limit)
      with (dls_body (fun s => (value s =? g)%Z)
                     (Warehouse.expand (Warehouse.WarehouseProblem root g))
                     limit) in A.
    change (Robot.init (Robot.RoomNavigationProblem root g))
      with (mkLoopState [Node_of root] failure) in A.
    change (Warehouse.init (Warehouse.WarehouseProblem root g))
      with (mkLoopState [Node_of root] failure) in A.
    rewrite (T1 0), (T2 0) in A. simpl in A. congruence.
Qed.

(** C10. On every tree and for every integer limit, negative ones included,
    [depth_limited_search] (robot and warehouse files) and
    [depth_limited_search_max] return: one round of the loop more than there
    are tree nodes at depth at most the limit is enough, a negative limit
    counting as 0, where only the root is visited. The loops pop at most one
    search node per such tree node, and there are at most as many of them as
    the tree has nodes. *)
Theorem C10_searches_terminate (root : BinaryTreeNode) (g limit : Z) :
  let bound := length (subtrees_upto (Z.to_nat limit) root) in
  (exists r, forall extra,
        Robot.depth_limited_search
          (S bound + extra) (Robot.RoomNavigationProblem root g) limit
        = Some r) /\
  (exists r, forall extra,
        Warehouse.depth_limited_search
          (S bound + extra) (Warehouse.WarehouseProblem root g) limit
        = Some r) /\
  (exists m, forall extra,
        Investment.depth_limited_search_max
          (S bound + extra) (Investment.InvestmentProblem (Some root)) limit
        = Some m) /\
  (forall fuel,
      Investment.depth_limited_search_max
        fuel (Investment.InvestmentProblem None) limit = Some None) /\
  (forall fuel,
      length (popped frontier
                     (Robot.loop_body (Robot.RoomNavigationProblem root g)
                                      limit)
                     fuel (Robot.init (Robot.RoomNavigationProblem root g)))
      <= bound) /\
  (forall fuel,
      length (popped frontier
                     (Warehouse.loop_body (Warehouse.WarehouseProblem root g)
                                          limit)
                     fuel
                     (Warehouse.init (Warehouse.WarehouseProblem root g)))
      <= bound) /\
  (forall fuel,
      length (popped Investment.mfrontier
                     (Investment.loop_body
                        (Investment.InvestmentProblem (Some root)) limit)
                     fuel (Investment.init root))
      <= bound) /\
  bound <= length (subtrees root).
Proof.
  intros bound.
  split; [|split; [|split; [|split; [|split; [|split; [|split]]]]]].
  - destruct (@dls_found_iff_within _ root g limit (Robot_expands root g))
      as [r [T _]]. exists r. exact T.
  - destruct (@dls_found_iff_within _ root g limit (Warehouse_expands root g))
      as [r [T _]]. exists r. exact T.
  - destruct (max_search_correct root limit) as [m [T _]].
    exists (Some m). exact T.
  - reflexivity.
  - intros fuel. unfold bound. rewrite <- (reach_init limit root).
    apply (@popped_bound
             _ _ _ frontier _ limit
             (@dls_evolves
                (Robot.is_goal (Robot.RoomNavigationProblem root g))
                (Robot.expand (Robot.RoomNavigationProblem root g)) limit)
             (Robot_expands root g)).
  - intros fuel. unfold bound. rewrite <- (reach_init limit root).
    apply (@popped_bound
             _ _ _ frontier _ limit
             (@dls_evolves
                (Warehouse.is_goal (Warehouse.WarehouseProblem root g))
                (Warehouse.expand (Warehouse.WarehouseProblem root g)) limit)
             (Warehouse_expands root g)).
  - intros fuel. unfold bound. rewrite <- (reach_init limit root).
    apply (@popped_bound
             _ _ _ Investment.mfrontier _ limit
             (max_evolves (Investment.InvestmentProblem (Some root)) limit)
             (Investment_expands (Some root))).
  - apply subtrees_upto_length.
Qed.

(** ** Exhausting the tree *)

Lemma popped_on_frontier (St R : Type) (front : St -> list Node)
      (body : St -> Step St R) :
  forall fuel st n,
    In n (popped front body fuel st) ->
    exists st', reaches body st st' /\ In n (front st').
Proof.
  induction fuel as [|fuel IH]; intros st n H; [destruct H|].
  cbn [popped] in H.
  destruct (pop (front st)) as [[rest node]|] eqn:E; [|destruct H].
  apply pop_Some in E. destruct H as [<-|H].
  - exists st. split; [constructor|].
    rewrite E. apply in_or_app. right. now left.
  - destruct (body st) as [r|st1] eqn:B; [destruct H|].
    destruct (IH _ _ H) as [st' [Hr Hin]]. exists st'.
    split; [|assumption].
    eapply reaches_trans; [|exact Hr].
    eapply reaches_step; [constructor|exact B].
Qed.

(** When the limit exceeds the height, a tree without the goal is searched
    to exhaustion, no node is cut, and the verdict is [failure]. With a limit
    equal to the height the deepest leaves are cut, see [C2_witness]. *)
Lemma dls_exhausted_failure (expand : Node -> list Node)
      (root : BinaryTreeNode) (g limit : Z) :
  expands_children expand ->
  ~ In g (values root) ->
  (Z.of_nat (height root) < limit)%Z ->
  forall extra,
    while_loop (dls_body (fun s => (value s =? g)%Z) expand limit)
               (S (length (subtrees root)) + extra)
               (mkLoopState [Node_of root] failure) = Some failure.
Proof.
  intros Hexp Hg Hh extra.
  assert (Hs : subtrees_upto (Z.to_nat limit) root = subtrees root)
    by (apply subtrees_upto_height; lia).
  destruct (@dls_found_iff_within expand root g limit Hexp) as [r [T I]].
  unfold values_upto in I. rewrite Hs in T, I.
  assert (Hn : forall n, r <> Found n).
  { intros n ->. apply Hg. apply I. exists n. split; [reflexivity|].
    specialize (T 0).
    apply (@dls_returned_node expand root g limit _ n Hexp) in T.
    apply T. }
  rewrite (T extra). f_equal.
  pose proof (@dls_evolves (fun s => (value s =? g)%Z) expand limit) as Hev.
  apply (@dls_failure_or_cutoff
           _ expand limit _ (mkLoopState [Node_of root] failure) r
           eq_refl (T extra) Hn).
  apply Forall_forall. intros n Hin.
  apply popped_on_frontier in Hin. destruct Hin as [st' [Hr Hin]].
  assert (HF : Forall (fun n => depth n + height (state n) <= height root)
                      (frontier st')).
  { apply (@frontier_invariant
             _ _ _ frontier expand limit Hev
             (fun n => depth n + height (state n) <= height root))
      with (st := mkLoopState [Node_of root] failure).
    - intros p c Pp _ Hc. destruct (Hexp p) as [k Hk]. rewrite Hk in Hc.
      apply in_map_iff in Hc. destruct Hc as [a [<- Ha]].
      apply height_children in Ha. cbn [depth state]. lia.
    - exact Hr.
    - constructor; [simpl; lia|constructor]. }
  rewrite Forall_forall in HF. specialize (HF n Hin). lia.
Qed.

(** Scenario 4 of the specification, for any tree: a goal that no node
    carries and a limit above the height give [failure] in both files. *)
Lemma absent_goal_failure (root : BinaryTreeNode) (g limit : Z) :
  ~ In g (values root) ->
  (Z.of_nat (height root) < limit)%Z ->
  forall extra,
    Robot.depth_limited_search
      (S (length (subtrees root)) + extra)
      (Robot.RoomNavigationProblem root g) limit = Some failure /\
    Warehouse.depth_limited_search
      (S (length (subtrees root)) + extra)
      (Warehouse.WarehouseProblem root g) limit = Some failure.
Proof.
  intros Hg Hh extra. split.
  - exact (@dls_exhausted_failure _ root g limit (Robot_expands root g)
                                  Hg Hh extra).
  - exact (@dls_exhausted_failure _ root g limit (Warehouse_expands root g)
                                  Hg Hh extra).
Qed.

(** ** The scenarios of the specification, by evaluation *)

(** Scenario 1: the maximum within depth 2 of the investment tree is 6. *)
Example scenario_max_limit_2 :
  Investment.depth_limited_search_max
    7 (Investment.InvestmentProblem (Some demo_investment)) 2
  = Some (Some 6%Z).
Proof. reflexivity. Qed.

(** Within depth 1 the nodes 4 and 6 are out of reach: the maximum is 5. *)
Example scenario_max_limit_1 :
  Investment.depth_limited_search_max
    7 (Investment.InvestmentProblem (Some demo_investment)) 1
  = Some (Some 5%Z).
Proof. reflexivity. Qed.

(** Scenario 3: goal 4 lies at depth 2, beyond limit 1. *)
Example scenario_goal_beyond_limit :
  Robot.depth_limited_search 6 (Robot.RoomNavigationProblem demo_tree 4) 1
  = Some cutoff /\
  Warehouse.depth_limited_search
    6 (Warehouse.WarehouseProblem demo_tree 4) 1
  = Some cutoff.
Proof. split; reflexivity. Qed.

(** Scenario 4: goal 99 is absent and limit 5 exceeds the height 2. *)
Example scenario_goal_absent :
  Robot.depth_limited_search 6 (Robot.RoomNavigationProblem demo_tree 99) 5
  = Some failure /\
  Warehouse.depth_limited_search
    6 (Warehouse.WarehouseProblem demo_tree 99) 5
  = Some failure.
Proof. split; reflexivity. Qed.

(** A negative limit cuts the root itself. *)
Example scenario_negative_limit :
  Robot.depth_limited_search
    2 (Robot.RoomNavigationProblem demo_tree 99) (-3)
  = Some cutoff /\
  Investment.depth_limited_search_max
    2 (Investment.InvestmentProblem (Some demo_investment)) (-3)
  = Some (Some 3%Z).
Proof. split; reflexivity. Qed.

(** ** Further properties: the order of the visit *)

Lemma while_loop_agree (St R : Type) (body : St -> Step St R) :
  forall fuel1 fuel2 st r1 r2,
    while_loop body fuel1 st = Some r1 ->
    while_loop body fuel2 st = Some r2 -> r1 = r2.
Proof.
  intros fuel1 fuel2 st r1 r2 H1 H2.
  apply (while_loop_more _ _ _ fuel2) in H1.
  apply (while_loop_more _ _ _ fuel1) in H2.
  rewrite Nat.add_comm in H2. congruence.
Qed.

Lemma visit_order_0 (t : BinaryTreeNode) : visit_order 0 t = [t].
Proof. destruct t; reflexivity. Qed.

Lemma visit_order_S (b : nat) (t : BinaryTreeNode) :
  visit_order (S b) t = t :: flat_map (visit_order b) (rev (children t)).
Proof.
  destruct t as [v [l|] [r|]]; unfold children; simpl;
    rewrite ?app_nil_r; reflexivity.
Qed.

Lemma pending_snoc (limit : Z) (rest : list Node) (node : Node) :
  pending limit (rest ++ [node])
  = visit_order (budget limit node) (state node) ++ pending limit rest.
Proof. unfold pending. rewrite rev_app_distr. reflexivity. Qed.

Lemma pending_init (limit : Z) (root : BinaryTreeNode) :
  pending limit [Node_of root] = visit_order (Z.to_nat limit) root.
Proof.
  unfold pending, budget. simpl. rewrite app_nil_r, Z.sub_0_r. reflexivity.
Qed.

Lemma pending_children (limit : Z) (n : Node) (c : Z)
      (rest : list Node) :
  (Z.of_nat (depth n) < limit)%Z ->
  visit_order (budget limit n) (state n) ++ pending limit rest
  = state n
      :: pending limit (rest ++ map (fun a => mkNode a (Some n) (Some a) c)
                                    (children (state n))).
Proof.
  intros H.
  assert (Hb : budget limit n
               = S (Z.to_nat (limit - Z.of_nat (S (depth n)))))
    by (unfold budget; lia).
  rewrite Hb, visit_order_S. unfold pending.
  rewrite rev_app_distr, flat_map_app, <- map_rev. cbn [app]. f_equal.
  f_equal. induction (rev (children (state n))) as [|a l IH];
    cbn [map flat_map]; [reflexivity|].
  rewrite IH. reflexivity.
Qed.

Section VisitOrder.

Variables St R : Type.
Variable body : St -> Step St R.
Variable front : St -> list Node.
Variable expand : Node -> list Node.
Variable limit : Z.
Hypothesis Hev : evolves body front expand limit.
Hypothesis Hexp : expands_children expand.

(** Going round the loop takes the first pending tree node. *)
Lemma pending_round (st st' : St) :
  body st = Continue st' ->
  exists rest node,
    front st = rest ++ [node] /\
    pending limit (front st) = state node :: pending limit (front st').
Proof.
  intros Hstep.
  destruct (Hev Hstep) as [rest [node [Hf [[Hge Hf']|[Hlt Hf']]]]];
    exists rest, node; (split; [assumption|]);
    rewrite Hf, Hf', pending_snoc.
  - unfold budget. replace (Z.to_nat (limit - Z.of_nat (depth node))) with 0
      by lia.
    rewrite visit_order_0. reflexivity.
  - destruct (Hexp node) as [c Hc]. rewrite Hc.
    now apply pending_children.
Qed.

(** A loop that only returns on an empty frontier pops the pending tree
    nodes, in their order. *)
Lemma popped_pending :
  (forall st r, body st = Return r -> front st = []) ->
  forall fuel st r,
    while_loop body fuel st = Some r ->
    map state (popped front body fuel st) = pending limit (front st).
Proof.
  intros Hret. induction fuel as [|fuel IH]; intros st r H; [discriminate|].
  cbn [while_loop popped] in *.
  destruct (body st) as [r'|st'] eqn:E.
  - rewrite (Hret _ _ E). reflexivity.
  - destruct (pending_round E) as [rest [node [Hf Hp]]].
    rewrite Hp. rewrite Hf at 1. rewrite pop_snoc. cbn [map]. f_equal.
    eapply IH; eassumption.
Qed.

End VisitOrder.

Lemma dls_visit (is_goal : BinaryTreeNode -> bool)
      (expand : Node -> list Node) (limit : Z) :
  expands_children expand ->
  forall fuel st r,
    sentinel (result st) ->
    while_loop (dls_body is_goal expand limit) fuel st = Some r ->
    map state (popped frontier (dls_body is_goal expand limit) fuel st)
    = until is_goal (pending limit (frontier st)) /\
    match find is_goal (pending limit (frontier st)) with
    | Some x => exists n, r = Found n /\ state n = x
    | None => r = result st \/ r = cutoff
    end.
Proof.
  intros Hexp.
  induction fuel as [|fuel IH]; intros st r Hs H; [discriminate|].
  cbn [while_loop popped] in *.
  pose proof (dls_body_cases is_goal expand limit st) as C.
  destruct (dls_body is_goal expand limit st) as [r'|st'] eqn:E.
  - inversion H; subst r'.
    destruct C as [[Hf Hr]|[rest [node [Hf [G Hr]]]]].
    + rewrite Hf. cbn. auto.
    + rewrite Hf, pop_snoc, pending_snoc.
      destruct (visit_order (budget limit node) (state node))
        as [|x l] eqn:V.
      * destruct (state node), (budget limit node); discriminate.
      * assert (x = state node)
          by (destruct (state node), (budget limit node);
              simpl in V; congruence).
        subst x. cbn [app until find map]. rewrite G.
        split; [reflexivity|]. exists node. auto.
  - destruct C as [rest [node [Hf [G C]]]].
    destruct (@pending_round _ _ _ frontier expand limit
                             (dls_evolves is_goal expand limit) Hexp
                             st st' E) as [rest' [node' [Hf' Hp]]].
    rewrite Hf in Hf'. apply app_inj_tail in Hf'. destruct Hf' as [_ <-].
    rewrite Hp. rewrite Hf at 1. rewrite pop_snoc.
    cbn [map until find]. rewrite G.
    assert (Hs' : sentinel (result st')).
    { destruct C as [[_ ->]|[_ ->]]; [now right|assumption]. }
    destruct (IH st' r Hs' H) as [I1 I2]. split; [now f_equal|].
    destruct (find is_goal (pending limit (frontier st'))); [exact I2|].
    destruct C as [[_ ->]|[_ ->]]; simpl in I2; tauto.
Qed.

Lemma dls_visit_from_root (expand : Node -> list Node)
      (root : BinaryTreeNode) (g limit : Z) :
  expands_children expand ->
  let is_goal := fun s => (value s =? g)%Z in
  let order := visit_order (Z.to_nat limit) root in
  let fuel := S (length (subtrees_upto (Z.to_nat limit) root)) in
  let st0 := mkLoopState [Node_of root] failure in
  exists r,
    (forall extra,
        while_loop (dls_body is_goal expand limit) (fuel + extra) st0
        = Some r) /\
    (forall extra,
        map state (popped frontier (dls_body is_goal expand limit)
                          (fuel + extra) st0)
        = until is_goal order) /\
    match find is_goal order with
    | Some x => exists n, r = Found n /\ state n = x
    | None => sentinel r
    end.
Proof.
  intros Hexp is_goal order fuel st0.
  destruct (@dls_found_iff_within expand root g limit Hexp) as [r [T _]].
  exists r. split; [exact T|].
  assert (Hs : sentinel (result st0)) by now left.
  split.
  - intros extra.
    destruct (@dls_visit is_goal expand limit Hexp _ st0 r Hs (T extra))
      as [V _].
    unfold st0 in V at 2. cbn [frontier] in V. rewrite pending_init in V.
    exact V.
  - destruct (@dls_visit is_goal expand limit Hexp _ st0 r Hs (T 0))
      as [_ F].
    unfold st0 in F. cbn [frontier result] in F.
    rewrite pending_init in F. fold order in F.
    destruct (find is_goal order); [exact F|exact F].
Qed.

(** X1. [depth_limited_search] (robot file and warehouse file) visits the
    tree in right-first preorder down to the limit: a node, then the subtree
    of its right child, then that of its left child. The states of the nodes
    it pops are that order up to and including the first node carrying the
    goal value, and it is that first node's state that the returned goal node
    holds; when no node of the order carries the goal, a sentinel is
    returned. *)
Theorem X1_first_goal_in_right_first_order
        (root : BinaryTreeNode) (g limit : Z) :
  let is_goal := fun s => (value s =? g)%Z in
  let order := visit_order (Z.to_nat limit) root in
  let fuel := S (length (subtrees_upto (Z.to_nat limit) root)) in
  (let problem := Robot.RoomNavigationProblem root g in
   exists r,
     (forall extra,
         Robot.depth_limited_search (fuel + extra) problem limit = Some r) /\
     (forall extra,
         map state (popped frontier (Robot.loop_body problem limit)
                           (fuel + extra) (Robot.init problem))
         = until is_goal order) /\
     match find is_goal order with
     | Some x => exists n, r = Found n /\ state n = x
     | None => r = failure \/ r = cutoff
     end) /\
  (let problem := Warehouse.WarehouseProblem root g in
   exists r,
     (forall extra,
         Warehouse.depth_limited_search (fuel + extra) problem limit
         = Some r) /\
     (forall extra,
         map state (popped frontier (Warehouse.loop_body problem limit)
                           (fuel + extra) (Warehouse.init problem))
         = until is_goal order) /\
     match find is_goal order with
     | Some x => exists n, r = Found n /\ state n = x
     | None => r = failure \/ r = cutoff
     end).
Proof.
  intros is_goal order fuel. split; intros problem.
  - exact (@dls_visit_from_root (Robot.expand problem) root g limit
                                (Robot_expands root g)).
  - exact (@dls_visit_from_root (Warehouse.expand problem) root g limit
                                (Warehouse_expands root g)).
Qed.

(** X2. [depth_limited_search_max] scores the nodes at depth at most the
    limit in right-first preorder, each once: the states of the nodes it
    pops are exactly that order. *)
Theorem X2_max_visits_in_right_first_order
        (root : BinaryTreeNode) (limit : Z) (extra : nat) :
  let problem := Investment.InvestmentProblem (Some root) in
  map state
      (popped Investment.mfrontier (Investment.loop_body problem limit)
              (S (length (subtrees_upto (Z.to_nat limit) root)) + extra)
              (Investment.init root))
  = visit_order (Z.to_nat limit) root.
Proof.
  intros problem.
  destruct (max_search_correct root limit) as [m [T _]].
  specialize (T extra).
  unfold Investment.depth_limited_search_max in T.
  cbn [Investment.initial Investment.InvestmentProblem] in T.
  rewrite (@popped_pending
             _ _ _ Investment.mfrontier _ limit
             (max_evolves problem limit) (Investment_expands (Some root))
             (@max_returns_empty problem limit) _ _ _ T).
  unfold Investment.init. cbn [Investment.mfrontier].
  apply pending_init.
Qed.

(** ** Further properties: the three outcomes *)

Lemma height_has_child (t : BinaryTreeNode) :
  0 < height t -> exists c, In c (children t) /\ height t = S (height c).
Proof.
  destruct t as [v [l|] [r|]]; unfold children; simpl; intros H.
  - destruct (Nat.le_ge_cases (height l) (height r)).
    + exists r. split; [auto|lia].
    + exists l. split; [auto|lia].
  - exists l. split; [auto|lia].
  - exists r. split; [auto|lia].
  - lia.
Qed.

(** Until a node is cut, some frontier node still has the limit below
    it. *)
Lemma dls_cut_invariant (is_goal : BinaryTreeNode -> bool)
      (expand : Node -> list Node) (limit : Z) (st st' : LoopState) :
  expands_children expand ->
  reaches (dls_body is_goal expand limit) st st' ->
  result st = cutoff \/ cut_pending limit (frontier st) ->
  result st' = cutoff \/ cut_pending limit (frontier st').
Proof.
  intros Hexp Hr H0. induction Hr as [|s1 s2 _ IH Hstep]; [assumption|].
  pose proof (dls_body_cases is_goal expand limit s1) as C.
  rewrite Hstep in C. destruct C as [rest [node [Hf [_ C]]]].
  destruct C as [[Hge ->]|[Hlt ->]]; cbn [frontier result]; [now left|].
  destruct IH as [IH|IH]; [now left|right].
  unfold cut_pending in *. rewrite Hf in IH. apply Exists_app in IH.
  apply Exists_app. destruct IH as [IH|IH]; [now left|right].
  inversion IH as [x l Hb|x l Hb]; subst; [|inversion Hb].
  destruct (@height_has_child (state node)) as [c [Hc Hh]].
  { unfold budget in Hb. lia. }
  destruct (Hexp node) as [k Hk]. rewrite Hk.
  apply Exists_exists. exists (mkNode c (Some node) (Some c) k).
  split.
  - exact (in_map (fun a => mkNode a (Some node) (Some a) k) _ _ Hc).
  - unfold budget in *. cbn [depth state]. lia.
Qed.

Lemma dls_cutoff (expand : Node -> list Node)
      (root : BinaryTreeNode) (g limit : Z) (fuel : nat) (r : SearchResult) :
  expands_children expand ->
  (limit <= Z.of_nat (height root))%Z ->
  while_loop (dls_body (fun s => (value s =? g)%Z) expand limit) fuel
             (mkLoopState [Node_of root] failure) = Some r ->
  (forall n, r <> Found n) ->
  r = cutoff.
Proof.
  intros Hexp Hh H Hn. apply while_loop_returns in H.
  destruct H as [st' [Hr Hb]].
  assert (I : result st' = cutoff \/ cut_pending limit (frontier st')).
  { apply (dls_cut_invariant Hexp Hr). right.
    constructor. unfold budget. simpl. lia. }
  pose proof (dls_body_cases (fun s => (value s =? g)%Z) expand limit st')
    as C.
  rewrite Hb in C. destruct C as [[Hf ->]|[rest [node [_ [_ ->]]]]].
  - destruct I as [I|I]; [assumption|].
    rewrite Hf in I. inversion I.
  - exfalso. now apply (Hn node).
Qed.

(** The outcome of a search from the root, read off the tree. *)
Lemma dls_outcome (expand : Node -> list Node)
      (root : BinaryTreeNode) (g limit : Z) :
  expands_children expand ->
  exists r,
    (forall extra,
        while_loop (dls_body (fun s => (value s =? g)%Z) expand limit)
                   (S (length (subtrees_upto (Z.to_nat limit) root)) + extra)
                   (mkLoopState [Node_of root] failure) = Some r) /\
    ((exists n, r = Found n /\ value (state n) = g) <->
     In g (values_upto (Z.to_nat limit) root)) /\
    (r = cutoff <->
     ~ In g (values_upto (Z.to_nat limit) root) /\
     (limit <= Z.of_nat (height root))%Z) /\
    (r = failure <->
     ~ In g (values_upto (Z.to_nat limit) root) /\
     (Z.of_nat (height root) < limit)%Z).
Proof.
  intros Hexp.
  destruct (@dls_found_iff_within expand root g limit Hexp) as [r [T I]].
  exists r. split; [exact T|]. split; [exact I|].
  assert (Sent : (forall n, r <> Found n) ->
                 ~ In g (values_upto (Z.to_nat limit) root)).
  { intros Hn Hin. apply I in Hin. destruct Hin as [n [-> _]].
    now apply (Hn n). }
  assert (Cut : (forall n, r <> Found n) ->
                (limit <= Z.of_nat (height root))%Z -> r = cutoff).
  { intros Hn Hh.
    exact (@dls_cutoff expand root g limit _ r Hexp Hh (T 0) Hn). }
  assert (Fail : (forall n, r <> Found n) ->
                 (Z.of_nat (height root) < limit)%Z -> r = failure).
  { intros Hn Hh.
    assert (Hs : subtrees_upto (Z.to_nat limit) root = subtrees root)
      by (apply subtrees_upto_height; lia).
    pose proof (Sent Hn) as Hg. unfold values_upto in Hg. rewrite Hs in Hg.
    pose proof (@dls_exhausted_failure expand root g limit Hexp Hg Hh 0)
      as F.
    rewrite Hs in T.
    exact (@while_loop_agree _ _ _ _ _ _ _ _ (T 0) F). }
  split; split.
  - intros ->. assert (Hn : forall n, cutoff <> Found n) by discriminate.
    split; [exact (Sent Hn)|].
    destruct (Z.le_gt_cases limit (Z.of_nat (height root))) as [Hh|Hh];
      [assumption|].
    specialize (Fail Hn Hh). discriminate.
  - intros [Hg Hh]. apply Cut; [|assumption].
    intros n ->. apply Hg. apply I. exists n. split; [reflexivity|].
    apply (@dls_returned_node expand root g limit _ n Hexp (T 0)).
  - intros ->. assert (Hn : forall n, failure <> Found n) by discriminate.
    split; [exact (Sent Hn)|].
    destruct (Z.le_gt_cases limit (Z.of_nat (height root))) as [Hh|Hh];
      [|lia].
    specialize (Cut Hn Hh). discriminate.
  - intros [Hg Hh]. apply Fail; [|assumption].
    intros n ->. apply Hg. apply I. exists n. split; [reflexivity|].
    apply (@dls_returned_node expand root g limit _ n Hexp (T 0)).
Qed.


(** ** Further properties: raising the limit *)

Lemma subtrees_upto_mono :
  forall b b' t x,
    b <= b' -> In x (subtrees_upto b t) -> In x (subtrees_upto b' t).
Proof.
  induction b as [|b IH]; intros b' t x Hle Hx.
  - rewrite subtrees_upto_0 in Hx. destruct Hx as [<-|[]].
    apply subtrees_upto_self.
  - destruct b' as [|b']; [lia|].
    rewrite subtrees_upto_S in *. destruct Hx as [Hx|Hx]; [now left|right].
    apply in_flat_map in Hx. destruct Hx as [c [Hc Hx]].
    apply in_flat_map. exists c. split; [assumption|].
    apply IH with (b' := b') in Hx; [assumption|lia].
Qed.

Lemma values_upto_mono (b b' : nat) (t : BinaryTreeNode) (v : Z) :
  b <= b' -> In v (values_upto b t) -> In v (values_upto b' t).
Proof.
  unfold values_upto. intros Hle Hv. apply in_map_iff in Hv.
  destruct Hv as [x [<- Hx]]. apply in_map.
  now apply subtrees_upto_mono with b.
Qed.

Lemma dls_raise_limit (expand : Node -> list Node)
      (root : BinaryTreeNode) (g limit limit' : Z) (fuel : nat) :
  expands_children expand ->
  (limit <= limit')%Z ->
  let search := fun l f =>
    while_loop (dls_body (fun s => (value s =? g)%Z) expand l) f
               (mkLoopState [Node_of root] failure) in
  (search limit fuel = Some failure ->
   ~ In g (values root) /\
   forall extra,
     search limit' (S (length (subtrees root)) + extra) = Some failure) /\
  (forall n,
      search limit fuel = Some (Found n) ->
      exists n',
        value (state n') = g /\
        forall extra,
          search limit'
                 (S (length (subtrees_upto (Z.to_nat limit') root)) + extra)
          = Some (Found n')).
Proof.
  intros Hexp Hle search.
  destruct (@dls_outcome expand root g limit Hexp) as [r [T [I [_ F]]]].
  split.
  - intros H.
    assert (r = failure)
      by exact (@while_loop_agree _ _ _ _ _ _ _ _ (T 0) H).
    destruct (proj1 F H0) as [Hg Hh].
    assert (Hs : subtrees_upto (Z.to_nat limit) root = subtrees root)
      by (apply subtrees_upto_height; lia).
    unfold values_upto in Hg. rewrite Hs in Hg. split; [exact Hg|].
    intros extra.
    apply (@dls_exhausted_failure expand root g limit' Hexp Hg); lia.
  - intros n H.
    assert (r = Found n)
      by exact (@while_loop_agree _ _ _ _ _ _ _ _ (T 0) H).
    assert (Hin : In g (values_upto (Z.to_nat limit) root)).
    { apply I. exists n. split; [assumption|].
      apply (@dls_returned_node expand root g limit _ n Hexp H). }
    apply values_upto_mono with (b' := Z.to_nat limit') in Hin; [|lia].
    destruct (@dls_outcome expand root g limit' Hexp)
      as [r' [T' [I' _]]].
    apply I' in Hin. destruct Hin as [n' [-> Hv]].
    exists n'. split; [exact Hv|exact T'].
Qed.

(** X4. Raising the limit of [depth_limited_search] (robot file and
    warehouse file). [failure] is definitive: when the search returns
    [failure] at some limit, no node of the tree carries the goal, and the
    search returns [failure] at every larger limit. A goal is not lost: when
    the search returns a goal node at some limit, it returns a goal node at
    every larger limit. *)
Theorem X4_failure_is_definitive_goal_is_kept
        (root : BinaryTreeNode) (g limit limit' : Z) (fuel : nat) :
  (limit <= limit')%Z ->
  (let search := fun l f =>
     Robot.depth_limited_search f (Robot.RoomNavigationProblem root g) l in
   (search limit fuel = Some failure ->
    ~ In g (values root) /\
    forall extra,
      search limit' (S (length (subtrees root)) + extra) = Some failure) /\
   (forall n,
       search limit fuel = Some (Found n) ->
       exists n',
         value (state n') = g /\
         forall extra,
           search limit'
                  (S (length (subtrees_upto (Z.to_nat limit') root)) + extra)
           = Some (Found n'))) /\
  (let search := fun l f =>
     Warehouse.depth_limited_search
       f (Warehouse.WarehouseProblem root g) l in
   (search limit fuel = Some failure ->
    ~ In g (values root) /\
    forall extra,
      search limit' (S (length (subtrees root)) + extra) = Some failure) /\
   (forall n,
       search limit fuel = Some (Found n) ->
       exists n',
         value (state n') = g /\
         forall extra,
           search limit'
                  (S (length (subtrees_upto (Z.to_nat limit') root)) + extra)
           = Some (Found n'))).
Proof.
  intros Hle. split.
  - exact (@dls_raise_limit _ root g limit limit' fuel
                            (Robot_expands root g) Hle).
  - exact (@dls_raise_limit _ root g limit limit' fuel
                            (Warehouse_expands root g) Hle).
Qed.

(** On the demonstration tree: [failure] for the absent goal 99 at limit 3
    stays at limit 7, and the goal 4 found at limit 2 is found at limit 5. *)
Lemma X4_witness :
  (~ In 99%Z (values demo_tree) /\
   forall extra,
     Robot.depth_limited_search
       (S (length (subtrees demo_tree)) + extra)
       (Robot.RoomNavigationProblem demo_tree 99) 7 = Some failure) /\
  (exists n',
      value (state n') = 4%Z /\
      forall extra,
        Warehouse.depth_limited_search
          (S (length (subtrees_upto (Z.to_nat 5) demo_tree)) + extra)
          (Warehouse.WarehouseProblem demo_tree 4) 5 = Some (Found n')).
Proof.
  split.
  - assert (Hle : (3 <= 7)%Z) by lia.
    apply (proj1 (proj1 (@X4_failure_is_definitive_goal_is_kept
                           demo_tree 99 3 7 6 Hle))).
    reflexivity.
  - assert (Hle : (2 <= 5)%Z) by lia.
    eapply (proj2 (proj2 (@X4_failure_is_definitive_goal_is_kept
                            demo_tree 4 2 5 5 Hle))).
    reflexivity.
Defined.

(** X5. The value of [depth_limited_search_max] on a tree is at least the
    root's payload, does not decrease when the limit is raised, and is the
    maximum payload of the whole tree once the limit reaches the height. *)
Theorem X5_max_grows_with_limit
        (root : BinaryTreeNode) (limit limit' : Z) (fuel fuel' : nat)
        (m m' : Z) :
  let problem := Investment.InvestmentProblem (Some root) in
  (limit <= limit')%Z ->
  Investment.depth_limited_search_max fuel problem limit = Some (Some m) ->
  Investment.depth_limited_search_max fuel' problem limit'
  = Some (Some m') ->
  (value root <= m)%Z /\
  (m <= m')%Z /\
  ((Z.of_nat (height root) <= limit)%Z -> is_max m (values root)).
Proof.
  intros problem Hle H H'.
  destruct (max_search_correct root limit) as [k [T [[Kin Kmax] _]]].
  destruct (max_search_correct root limit') as [k' [T' [[Kin' Kmax'] _]]].
  specialize (T 0). specialize (T' 0).
  unfold Investment.depth_limited_search_max in H, H', T, T'.
  cbn [Investment.initial Investment.InvestmentProblem problem] in H, H', T, T'.
  assert (E : Some k = Some m)
    by exact (@while_loop_agree _ _ _ _ _ _ _ _ T H).
  assert (E' : Some k' = Some m')
    by exact (@while_loop_agree _ _ _ _ _ _ _ _ T' H').
  inversion E; inversion E'; subst k k'. clear E E'.
  split; [|split].
  - apply Kmax. unfold values_upto. apply in_map. apply subtrees_upto_self.
  - apply Kmax'. apply values_upto_mono with (Z.to_nat limit); [lia|].
    exact Kin.
  - intros Hh.
    assert (Hs : subtrees_upto (Z.to_nat limit) root = subtrees root)
      by (apply subtrees_upto_height; lia).
    unfold values_upto in Kin, Kmax. rewrite Hs in Kin, Kmax.
    split; assumption.
Qed.

(** On the investment tree: value 5 at limit 1, 6 at limit 2; and at limit
    2, the height, the value 6 is the maximum of the tree. *)
Lemma X5_witness :
  ((value demo_investment <= 5)%Z /\ (5 <= 6)%Z) /\
  is_max 6 (values demo_investment).
Proof.
  split.
  - assert (Hle : (1 <= 2)%Z) by lia.
    destruct (@X5_max_grows_with_limit demo_investment 1 2 7 7 5 6 Hle
                                       eq_refl eq_refl) as [A [B _]].
    split; assumption.
  - assert (Hle : (2 <= 3)%Z) by lia.
    apply (@X5_max_grows_with_limit demo_investment 2 3 7 7 6 6 Hle
                                    eq_refl eq_refl).
    simpl. lia.
Defined.

(** ** Further properties: the size of the frontier *)








Section StackShape.

Variables St R : Type.
Variable body : St -> Step St R.
Variable front : St -> list Node.
Variable expand : Node -> list Node.
Variable limit : Z.
Hypothesis Hev : evolves body front expand limit.
Hypothesis Hexp : expands_children expand.



End StackShape.





(** ** Further properties: the root and limits at or below zero *)

Lemma dls_root_only (expand : Node -> list Node)
      (root : BinaryTreeNode) (g limit : Z) :
  expands_children expand ->
  let search := fun f =>
    while_loop (dls_body (fun s => (value s =? g)%Z) expand limit) f
               (mkLoopState [Node_of root] failure) in
  (value root = g ->
   forall fuel, search (S fuel) = Some (Found (Node_of root))) /\
  ((limit <= 0)%Z -> value root <> g ->
   forall extra, search (2 + extra) = Some cutoff).
Proof.
  intros Hexp search. split.
  - intros Hg fuel.
    apply (@dls_goal_first (fun s => (value s =? g)%Z) expand limit
                           [] (Node_of root) failure fuel).
    now apply Z.eqb_eq.
  - intros Hl Hg extra.
    destruct (@dls_outcome expand root g limit Hexp) as [r [T [_ [C _]]]].
    replace (Z.to_nat limit) with 0 in T, C by lia.
    unfold values_upto in C. rewrite subtrees_upto_0 in T, C.
    assert (r = cutoff) as ->.
    { apply C. split; [|lia]. simpl. intros [E|[]]. now apply Hg. }
    exact (T extra).
Qed.

(** X7. The root and limits at or below zero. When the root carries the
    goal, [depth_limited_search] (robot file and warehouse file) returns, for
    every limit and at its first iteration, the root's own search node, which
    has no parent and path cost 0. With a limit at or below zero and a root
    that is not the goal the result is [cutoff], whatever the tree holds
    below the root; and [depth_limited_search_max] then returns the root's
    payload. *)
Theorem X7_root_and_nonpositive_limits
        (root : BinaryTreeNode) (g limit : Z) :
  (value root = g ->
   forall fuel,
     Robot.depth_limited_search
       (S fuel) (Robot.RoomNavigationProblem root g) limit
     = Some (Found (Node_of root)) /\
     Warehouse.depth_limited_search
       (S fuel) (Warehouse.WarehouseProblem root g) limit
     = Some (Found (Node_of root))) /\
  ((limit <= 0)%Z ->
   (value root <> g ->
    forall extra,
      Robot.depth_limited_search
        (2 + extra) (Robot.RoomNavigationProblem root g) limit
      = Some cutoff /\
      Warehouse.depth_limited_search
        (2 + extra) (Warehouse.WarehouseProblem root g) limit
      = Some cutoff) /\
   (forall extra,
       Investment.depth_limited_search_max
         (2 + extra) (Investment.InvestmentProblem (Some root)) limit
       = Some (Some (value root)))).
Proof.
  pose proof (@dls_root_only _ root g limit (Robot_expands root g))
    as [R1 R2].
  pose proof (@dls_root_only _ root g limit (Warehouse_expands root g))
    as [W1 W2].
  split; [|intros Hl; split].
  - intros Hg fuel. split; [exact (R1 Hg fuel)|exact (W1 Hg fuel)].
  - intros Hg extra. split; [exact (R2 Hl Hg extra)|exact (W2 Hl Hg extra)].
  - intros extra.
    destruct (max_search_correct root limit) as [m [T [[Hin _] _]]].
    specialize (T extra). unfold values_upto in Hin.
    replace (Z.to_nat limit) with 0 in T, Hin by lia.
    rewrite subtrees_upto_0 in T, Hin.
    destruct Hin as [<-|[]]. exact T.
Qed.

(** On the demonstration trees: goal 1 at the root with limit -2, goal 4
    with limit -2, and the investment tree with limit -2. *)
Lemma X7_witness :
  (Robot.depth_limited_search 1 (Robot.RoomNavigationProblem demo_tree 1)
                              (-2)
   = Some (Found (Node_of demo_tree)) /\
   Warehouse.depth_limited_search
     1 (Warehouse.WarehouseProblem demo_tree 1) (-2)
   = Some (Found (Node_of demo_tree))) /\
  (Robot.depth_limited_search (2 + 0) (Robot.RoomNavigationProblem demo_tree 4)
                              (-2)
   = Some cutoff /\
   Warehouse.depth_limited_search
     (2 + 0) (Warehouse.WarehouseProblem demo_tree 4) (-2)
   = Some cutoff) /\
  Investment.depth_limited_search_max
    (2 + 0) (Investment.InvestmentProblem (Some demo_investment)) (-2)
  = Some (Some (value demo_investment)).
Proof.
  assert (Hl : (-2 <= 0)%Z) by lia.
  assert (Hg : value demo_tree <> 4%Z) by (simpl; lia).
  split; [|split].
  - exact (proj1 (@X7_root_and_nonpositive_limits demo_tree 1 (-2))
                 eq_refl 0).
  - exact (proj1 (proj2 (@X7_root_and_nonpositive_limits demo_tree 4 (-2))
                        Hl) Hg 0).
  - exact (proj2 (proj2 (@X7_root_and_nonpositive_limits
                           demo_investment 0 (-2)) Hl) 0).
Defined.
